(** * llamavault: the encrypted credential vault

    A shallow embedding of [src/llamavault/credential.py] and
    [src/llamavault/vault.py], and the properties of the vault that
    follow from the code.

    - Python objects are records; the [_credentials] dict is an
      insertion-ordered association list with the semantics of a Python
      [dict] (assignment replaces in place or appends, iteration follows
      insertion order).
    - Values read back from the store are dynamically typed in Python, so
      the [name], [value] and [metadata] attributes of a credential hold
      JSON values ([json]); the public methods put [JStr] and [JObj]
      values there.
    - Everything outside the repository is a parameter ([Externals]):
      PBKDF2, Fernet, the [json] codec and the [datetime] text formats,
      with the laws the libraries document. Fernet is taken as an ideal
      authenticated cipher; of PBKDF2 only the zero-padding of HMAC keys
      is used, so nothing is assumed about different passwords deriving
      different keys.
    - The file system, the wall clock, [os.urandom], the process
      environment and the logger form the [World]; methods run in a
      state-and-exception monad in which, as in Python, the mutations done
      before an exception is raised stay in effect.
    - Kept out of the model: credential names outside ASCII (for
      [str.upper]), numbers other than integers in JSON, a [config.json]
      that parses but lacks one of its keys, backup directories other
      than the default one, and I/O failures other than a refused write
      to the store or to [config.json]. *)

From Stdlib Require Import List String Ascii ZArith Bool Lia Arith.
From Stdlib Require Import DecimalString DecimalZ.
Import ListNotations.
Local Open Scope string_scope.
Local Open Scope Z_scope.

Set Implicit Arguments.

(** ** Python dictionaries *)

Section PyDict.
Context {V : Type}.

Definition pydict : Type := list (string * V).

(** [d.get(k)] / [d[k]] / [k in d]. *)
Fixpoint dict_get (k : string) (d : pydict) : option V :=
  match d with
  | [] => None
  | (k', v) :: r => if String.eqb k k' then Some v else dict_get k r
  end.

Definition dict_mem (k : string) (d : pydict) : bool :=
  match dict_get k d with Some _ => true | None => false end.

(** [d[k] = v]: an existing key keeps its position, a new key goes last. *)
Fixpoint dict_set (k : string) (v : V) (d : pydict) : pydict :=
  match d with
  | [] => [(k, v)]
  | (k', v') :: r =>
      if String.eqb k k' then (k, v) :: r else (k', v') :: dict_set k v r
  end.

(** [del d[k]]. *)
Fixpoint dict_del (k : string) (d : pydict) : pydict :=
  match d with
  | [] => []
  | (k', v') :: r =>
      if String.eqb k k' then dict_del k r else (k', v') :: dict_del k r
  end.

Definition dict_keys (d : pydict) : list string := map fst d.

(** What a dict comprehension or [dict.update] does with a sequence of
    items. *)
Definition dict_update (d : pydict) (items : list (string * V)) : pydict :=
  fold_left (fun acc kv => dict_set (fst kv) (snd kv) acc) items d.

(** A Python dict never holds a key twice. *)
Definition dict_wf (d : pydict) : Prop := NoDup (dict_keys d).
End PyDict.

Arguments pydict : clear implicits.

(** ** JSON values, as [json.loads] returns them *)

Unset Elimination Schemes.
Inductive json : Type :=
| JNull
| JBool (b : bool)
| JNum (n : Z)                (* integers only *)
| JStr (s : string)
| JArr (l : list json)
| JObj (o : pydict json).
Set Elimination Schemes.

(** Python truthiness ([if not x], [x or y]). *)
Definition truthy (j : json) : bool :=
  match j with
  | JNull => false
  | JBool b => b
  | JNum n => negb (n =? 0)
  | JStr s => negb (String.eqb s "")
  | JArr l => match l with [] => false | _ => true end
  | JObj o => match o with [] => false | _ => true end
  end.

Fixpoint nodupb (l : list string) : bool :=
  match l with
  | [] => true
  | x :: r => negb (existsb (String.eqb x) r) && nodupb r
  end.

(** The JSON values that are images of Python values: no object holds a key
    twice, at any depth. *)
Fixpoint json_wf (j : json) : bool :=
  match j with
  | JArr l => forallb json_wf l
  | JObj o =>
      nodupb (map fst o) && forallb (fun kv => let '(_, v) := kv in json_wf v) o
  | _ => true
  end.

(** ** Python strings

    Names are taken to be ASCII text; [str.upper] is then the map below. *)



(** [s.replace(old, new)] for one-character [old] and [new]. *)
Fixpoint replace_char (old new : ascii) (s : string) : string :=
  match s with
  | EmptyString => EmptyString
  | String c r =>
      String (if Ascii.eqb c old then new else c) (replace_char old new r)
  end.

Definition replace (old new s : string) : string :=
  match old, new with
  | String o EmptyString, String n EmptyString => replace_char o n s
  | _, _ => s
  end.

Fixpoint ends_with (suffix s : string) : bool :=
  String.eqb s suffix ||
  match s with
  | EmptyString => false
  | String _ r => ends_with suffix r
  end.

(** [fnmatch(name, "vault_*.enc")]. *)
Definition glob_backup (n : string) : bool :=
  String.prefix "vault_" n && ends_with ".enc" (String.substring 6 (String.length n - 6) n).

(** [sorted(names)], by code point. *)
Fixpoint insert_sorted (x : string) (l : list string) : list string :=
  match l with
  | [] => [x]
  | y :: r => if String.leb x y then x :: l else y :: insert_sorted x r
  end.

Definition sorted (l : list string) : list string :=
  fold_right insert_sorted [] l.

(** ** The libraries the vault calls *)

Definition bytes : Type := list Byte.byte.

(** A naive [datetime], counted in microseconds. *)
Definition datetime : Type := Z.

Class Externals : Type := {
  (** Fernet keys, Fernet tokens and serialized JSON text. *)
  key : Type;
  blob : Type;
  data : Type;
  (** [base64.urlsafe_b64encode(PBKDF2HMAC(SHA256, 32, salt, 100000).derive(password.encode()))]. *)
  pbkdf2 : string -> bytes -> key;
  (** [Fernet(key).encrypt(data)], with the 16 random bytes it draws. *)
  fernet_encrypt : key -> bytes -> data -> blob;
  (** [Fernet(key).decrypt(token)]; [None] stands for [InvalidToken]. *)
  fernet_decrypt : key -> blob -> option data;
  (** [json.dumps(obj).encode()] and [json.loads(text)]. *)
  json_dumps : json -> data;
  json_loads : data -> option json;
  (** [datetime.isoformat()], [datetime.fromisoformat(s)] ([None] stands
      for [ValueError]) and [datetime.strftime("%Y%m%d_%H%M%S")]. *)
  isoformat : datetime -> string;
  fromisoformat : string -> option datetime;
  strftime : datetime -> string;
  (** Keys are byte strings: two keys can be compared. *)
  key_eq_dec : forall k k' : key, {k = k'} + {k <> k'};
  (** Fernet decrypts what it encrypted... *)
  fernet_roundtrip : forall k iv d, fernet_decrypt k (fernet_encrypt k iv d) = Some d;
  (** ...and authenticates: a token made under another key is rejected. *)
  fernet_authentic : forall k k' iv d, k <> k' -> fernet_decrypt k' (fernet_encrypt k iv d) = None;
  (** HMAC pads a key shorter than its block (64 bytes for SHA-256) with
      zero bytes, so a password and the same password followed by a NUL
      byte derive the same key: the derivation is not injective. *)
  pbkdf2_zero_pad : forall p s,
    (String.length p < 64)%nat -> pbkdf2 (p ++ String "000" "") s = pbkdf2 p s;
  (** JSON text parses back to the value it was printed from. *)
  json_roundtrip : forall j, json_wf j = true -> json_loads (json_dumps j) = Some j;
  (** ISO-8601 text parses back to the timestamp, and is never empty. *)
  iso_roundtrip : forall t, fromisoformat (isoformat t) = Some t;
  iso_nonempty : forall t, isoformat t <> ""
}.

(** ** Exceptions, results and the monad *)

(** The classes of [exceptions.py] that the vault raises, and the built-in
    exceptions that reach its [except Exception] handlers. *)
Inductive exn : Type :=
| VaultError
| CredentialNotFoundError
| AuthenticationError
| EncryptionError
| KeyError
| AttributeError
| OSError
| FileNotFoundError
| InvalidToken
| JSONDecodeError.

Inductive res (A : Type) : Type :=
| Ok (a : A)
| Raise (e : exn).
Arguments Ok {A} a.
Arguments Raise {A} e.

Definition M (S A : Type) : Type := S -> res A * S.

Definition ret {S A} (a : A) : M S A := fun s => (Ok a, s).

Definition bind {S A B} (m : M S A) (k : A -> M S B) : M S B :=
  fun s => match m s with
           | (Ok a, s') => k a s'
           | (Raise e, s') => (Raise e, s')
           end.

Definition raise {S A} (e : exn) : M S A := fun s => (Raise e, s).

Definition gets {S A} (f : S -> A) : M S A := fun s => (Ok (f s), s).

Definition modify {S} (f : S -> S) : M S unit := fun s => (Ok tt, f s).

(** [try: m except Exception as e: h e]; the state reached when the
    exception was raised is the one the handler starts from. *)
Definition try_except {S A} (m : M S A) (h : exn -> M S A) : M S A :=
  fun s => match m s with
           | (Ok a, s') => (Ok a, s')
           | (Raise e, s') => h e s'
           end.

Declare Scope monad_scope.
Delimit Scope monad_scope with monad.
Notation "x <- m ;; k" := (bind m (fun x => k))
  (at level 100, m at next level, right associativity) : monad_scope.
Notation "m ;; k" := (bind m (fun _ => k))
  (at level 100, right associativity) : monad_scope.
Local Open Scope monad_scope.

(** ** Credentials ([credential.py]) *)

Record Credential : Type := mkCredential {
  name : json;
  value : json;
  created_at : datetime;
  updated_at : datetime;
  last_accessed : option datetime;
  metadata : json
}.

(** [metadata or {}]. *)
Definition or_empty (metadata : json) : json :=
  if truthy metadata then metadata else JObj [].

(** [Credential.__init__]. *)
Definition Credential_init (n v : json) (c u : datetime) (m : json)
    (la : option datetime) : Credential :=
  mkCredential n v c u la (or_empty m).

Inductive level : Type := INFO | WARNING | ERROR.

Section Vault.
Context {ext : Externals}.

(** *** The world around the vault directory *)

Record Settings : Type := mkSettings {
  log_access : bool;
  auto_backup : bool;
  backup_count : Z
}.

(** [config.json], with the salt as the bytes its base64 text stands
    for. *)
Record Config : Type := mkConfig {
  cfg_created_at : string;
  version : Z;
  salt : bytes;
  settings : Settings
}.

(** What [json.load] makes of the bytes of [config.json]. *)
Inductive config_text : Type :=
| Garbled
| Parsed (c : Config).

Record World : Type := mkWorld {
  (** [vault.enc] and [config.json], when they exist. *)
  vault_file : option blob;
  config_file : option config_text;
  (** The backup directory: file name to content. *)
  backup_files : pydict blob;
  (** Whether a write to the store (temporary file and rename) or to
      [config.json] goes through; [false] makes it raise [OSError]. *)
  vault_writable : bool;
  config_writable : bool;
  (** [os.environ.get("LLAMAVAULT_PASSWORD")]. *)
  environ_password : option string;
  (** The readings of [datetime.now()] and the number taken so far. *)
  clock : nat -> datetime;
  ticks : nat;
  (** The bytes of [os.urandom] and the number drawn so far. *)
  entropy : nat -> Byte.byte;
  drawn : nat;
  (** The records of [logger], oldest first. *)
  log : list (level * string)
}.

Definition set_vault_file (b : option blob) (w : World) : World :=
  mkWorld b (config_file w) (backup_files w) (vault_writable w)
    (config_writable w) (environ_password w) (clock w) (ticks w)
    (entropy w) (drawn w) (log w).

Definition set_config_file (c : option config_text) (w : World) : World :=
  mkWorld (vault_file w) c (backup_files w) (vault_writable w)
    (config_writable w) (environ_password w) (clock w) (ticks w)
    (entropy w) (drawn w) (log w).

Definition set_backup_files (b : pydict blob) (w : World) : World :=
  mkWorld (vault_file w) (config_file w) b (vault_writable w)
    (config_writable w) (environ_password w) (clock w) (ticks w)
    (entropy w) (drawn w) (log w).

Definition set_ticks (n : nat) (w : World) : World :=
  mkWorld (vault_file w) (config_file w) (backup_files w) (vault_writable w)
    (config_writable w) (environ_password w) (clock w) n
    (entropy w) (drawn w) (log w).

Definition set_drawn (n : nat) (w : World) : World :=
  mkWorld (vault_file w) (config_file w) (backup_files w) (vault_writable w)
    (config_writable w) (environ_password w) (clock w) (ticks w)
    (entropy w) n (log w).

Definition set_log (l : list (level * string)) (w : World) : World :=
  mkWorld (vault_file w) (config_file w) (backup_files w) (vault_writable w)
    (config_writable w) (environ_password w) (clock w) (ticks w)
    (entropy w) (drawn w) l.

(** [datetime.now()]. *)
Definition now : M World datetime :=
  fun w => (Ok (clock w (ticks w)), set_ticks (S (ticks w)) w).

(** [os.urandom(n)]. *)
Definition urandom (n : nat) : M World bytes :=
  fun w => (Ok (map (entropy w) (seq (drawn w) n)), set_drawn (drawn w + n) w).

Definition logger (l : level) (msg : string) : M World unit :=
  modify (fun w => set_log (log w ++ [(l, msg)]) w).

(** *** [credential.py] *)

(** [parse_datetime] (lines 163-180); a missing key reaches it as
    [None], which reads like JSON [null]. *)
Definition parse_datetime (dt_str : json) : M World (option datetime) :=
  if negb (truthy dt_str) then ret None
  else
    match dt_str with
    | JStr s =>
        match fromisoformat s with
        | Some t => ret (Some t)
        | None => (t <- now ;; ret (Some t))   (* ValueError *)
        end
    | _ => (t <- now ;; ret (Some t))          (* TypeError *)
    end.

(** [d.get(k)] on a JSON object. *)
Definition json_get (k : string) (o : pydict json) : json :=
  match dict_get k o with Some j => j | None => JNull end.

(** [d[k]]. *)
Definition json_index {S} (k : string) (o : pydict json) : M S json :=
  match dict_get k o with Some j => ret j | None => raise KeyError end.

(** [x or datetime.now()]; a [datetime] is never falsy. *)
Definition or_now (x : option datetime) : M World datetime :=
  match x with Some t => ret t | None => now end.

(** [Credential.to_dict] (lines 49-63). *)
Definition to_dict (c : Credential) : json :=
  JObj [ ("name", name c);
         ("value", value c);
         ("created_at", JStr (isoformat (created_at c)));
         ("updated_at", JStr (isoformat (updated_at c)));
         ("last_accessed",
           match last_accessed c with
           | Some t => JStr (isoformat t)
           | None => JNull
           end);
         ("metadata", metadata c) ].

(** [Credential.from_dict] (lines 65-88). *)
Definition from_dict (d : json) : M World Credential :=
  match d with
  | JObj o =>
      c <- parse_datetime (json_get "created_at" o) ;;
      u <- parse_datetime (json_get "updated_at" o) ;;
      la <- parse_datetime (json_get "last_accessed" o) ;;
      n <- json_index "name" o ;;
      v <- json_index "value" o ;;
      c' <- or_now c ;;
      u' <- or_now u ;;
      ret (Credential_init n v c' u'
             (match dict_get "metadata" o with Some m => m | None => JObj [] end)
             la)
  | _ => raise AttributeError
  end.

(** [Credential.update_value] (lines 120-128). *)
Definition update_value (v : string) (c : Credential) : M World Credential :=
  t <- now ;;
  ret (mkCredential (name c) (JStr v) (created_at c) t (last_accessed c)
         (metadata c)).

(** [Credential.update_metadata] (lines 130-138): [dict.update] answers
    only on a dict. *)
Definition update_metadata (patch : pydict json) (c : Credential)
    : M World Credential :=
  match metadata c with
  | JObj m =>
      t <- now ;;
      ret (mkCredential (name c) (value c) (created_at c) t
             (last_accessed c) (JObj (dict_update m patch)))
  | _ => raise AttributeError
  end.

(** *** The vault object ([vault.py]) *)

Record Vault : Type := mkVault {
  auto_save : bool;
  _password : option string;
  _credentials : pydict Credential;
  _config : Config
}.

(** A method runs on the object and the world together. *)
Record St : Type := mkSt {
  world : World;
  self : Vault
}.

Definition lift {A} (m : M World A) : M St A :=
  fun s => let (r, w) := m (world s) in (r, mkSt w (self s)).

Definition set_self (f : Vault -> Vault) : M St unit :=
  modify (fun s => mkSt (world s) (f (self s))).

Definition set_world (f : World -> World) : M St unit :=
  modify (fun s => mkSt (f (world s)) (self s)).

Definition with_password (p : option string) (v : Vault) : Vault :=
  mkVault (auto_save v) p (_credentials v) (_config v).

Definition with_credentials (c : pydict Credential) (v : Vault) : Vault :=
  mkVault (auto_save v) (_password v) c (_config v).

Definition with_config (c : Config) (v : Vault) : Vault :=
  mkVault (auto_save v) (_password v) (_credentials v) c.

Definition with_salt (s : bytes) (c : Config) : Config :=
  mkConfig (cfg_created_at c) (version c) s (settings c).

(** The configuration written by [_load_config] and [init]. *)
Definition fresh_config : M World Config :=
  t <- now ;;
  s <- urandom 16 ;;
  ret (mkConfig (isoformat t) 1 s (mkSettings true true 5)).

(** [Vault._derive_key] (lines 86-108). *)
Definition _derive_key (password : option string) (salt0 : bytes)
    : M World (key * bytes) :=
  s <- (match salt0 with [] => urandom 16 | _ => ret salt0 end) ;;
  match password with
  | Some p => ret (pbkdf2 p s, s)
  | None => raise AttributeError        (* None.encode() *)
  end.

(** [Vault._load_config] (lines 110-129). *)
Definition _load_config : M World Config :=
  f <- gets config_file ;;
  match f with
  | Some (Parsed c) => ret c
  | Some Garbled =>
      logger WARNING "Failed to load config, using defaults" ;;
      fresh_config
  | None => fresh_config
  end.

(** [Vault._save_config] (lines 131-134). *)
Definition _save_config : M St unit :=
  ok <- gets (fun s => config_writable (world s)) ;;
  if ok : bool then
    c <- gets (fun s => _config (self s)) ;;
    set_world (set_config_file (Some (Parsed c)))
  else raise OSError.

(** The dict comprehension of [_load_vault] (lines 158-160). *)
Fixpoint load_items (items : pydict json) (acc : pydict Credential)
    : M World (pydict Credential) :=
  match items with
  | [] => ret acc
  | (k, v) :: r =>
      c <- from_dict v ;;
      load_items r (dict_set k c acc)
  end.

(** [Vault._load_vault] (lines 136-164). *)
Definition _load_vault : M St unit :=
  f <- gets (fun s => vault_file (world s)) ;;
  match f with
  | None => ret tt
  | Some encrypted_data =>
      try_except
        (cfg <- gets (fun s => _config (self s)) ;;
         pw <- gets (fun s => _password (self s)) ;;
         ks <- lift (_derive_key pw (salt cfg)) ;;
         match fernet_decrypt (fst ks) encrypted_data with
         | None => raise InvalidToken
         | Some decrypted_data =>
             match json_loads decrypted_data with
             | None => raise JSONDecodeError
             | Some (JObj credentials_data) =>
                 creds <- lift (load_items credentials_data []) ;;
                 set_self (with_credentials creds)
             | Some _ => raise AttributeError   (* no .items() *)
             end
         end)
        (fun e =>
           lift (logger ERROR "Failed to load vault") ;;
           raise EncryptionError)
  end.

(** The JSON object [_save_vault] serializes (lines 170-172). *)
Definition credentials_data (creds : pydict Credential) : json :=
  JObj (map (fun kv => (fst kv, to_dict (snd kv))) creds).

(** [Vault._save_vault] (lines 166-198). *)
Definition _save_vault : M St unit :=
  try_except
    (creds <- gets (fun s => _credentials (self s)) ;;
     let plain := json_dumps (credentials_data creds) in
     cfg <- gets (fun s => _config (self s)) ;;
     pw <- gets (fun s => _password (self s)) ;;
     ks <- lift (_derive_key pw (salt cfg)) ;;
     iv <- lift (urandom 16) ;;
     let encrypted_data := fernet_encrypt (fst ks) iv plain in
     ok <- gets (fun s => vault_writable (world s)) ;;
     if ok : bool then set_world (set_vault_file (Some encrypted_data))
     else raise OSError)
    (fun e =>
       lift (logger ERROR "Failed to save vault") ;;
       raise EncryptionError).

Definition save_if_auto : M St unit :=
  a <- gets (fun s => auto_save (self s)) ;;
  if a : bool then _save_vault else ret tt.

(** [password or os.environ.get("LLAMAVAULT_PASSWORD")]. *)
Definition password_or_environ (password env : option string)
    : option string :=
  match password with
  | Some "" | None => env
  | Some p => Some p
  end.

(** [not self._password]. *)
Definition no_password (p : option string) : bool :=
  match p with
  | Some "" | None => true
  | Some _ => false
  end.

(** [Vault.__init__] (lines 43-84): the object it returns, or the
    exception it raises. *)
Definition __init__ (password : option string) (auto : bool)
    : M World Vault :=
  env <- gets environ_password ;;
  let pw := password_or_environ password env in
  f <- gets vault_file ;;
  let existing := match f with Some _ => true | None => false end in
  if no_password pw && existing then raise AuthenticationError
  else
    cfg <- _load_config ;;
    let obj := mkVault auto pw [] cfg in
    if existing then
      fun w =>
        match _load_vault (mkSt w obj) with
        | (Ok _, s) => (Ok (self s), world s)
        | (Raise _, s) => (Raise AuthenticationError, world s)
        end
    else ret obj.

(** [Vault.add_credential] (lines 200-229). *)
Definition add_credential (n v : string) (m : option (pydict json))
    : M St unit :=
  let m' := or_empty (match m with Some d => JObj d | None => JNull end) in
  c <- lift now ;;
  u <- lift now ;;
  let credential := Credential_init (JStr n) (JStr v) c u m' None in
  set_self (fun o => with_credentials (dict_set n credential (_credentials o)) o) ;;
  save_if_auto.

Definition not_found {A} : M St A := raise CredentialNotFoundError.

(** [Vault.get_credential] (lines 231-255). *)
Definition get_credential (n : string) : M St json :=
  creds <- gets (fun s => _credentials (self s)) ;;
  match dict_get n creds with
  | None => not_found
  | Some credential =>
      la <- gets (fun s => log_access (settings (_config (self s)))) ;;
      if la : bool then
        t <- lift now ;;
        let credential' :=
          mkCredential (name credential) (value credential)
            (created_at credential) (updated_at credential) (Some t)
            (metadata credential) in
        set_self (fun o => with_credentials (dict_set n credential' (_credentials o)) o) ;;
        save_if_auto ;;
        ret (value credential')
      else ret (value credential)
  end.

(** [Vault.remove_credential] (lines 257-273). *)
Definition remove_credential (n : string) : M St unit :=
  creds <- gets (fun s => _credentials (self s)) ;;
  if dict_mem n creds then
    set_self (with_credentials (dict_del n creds)) ;;
    save_if_auto
  else not_found.

(** [Vault.list_credentials] (lines 275-282). *)
Definition list_credentials (o : Vault) : list string :=
  dict_keys (_credentials o).

(** [Vault.get_metadata] (lines 284-300). *)
Definition get_metadata (n : string) : M St json :=
  creds <- gets (fun s => _credentials (self s)) ;;
  match dict_get n creds with
  | None => not_found
  | Some credential => ret (metadata credential)
  end.

(** [Vault.set_metadata] (lines 302-320). *)
Definition set_metadata (n : string) (m : pydict json) : M St unit :=
  creds <- gets (fun s => _credentials (self s)) ;;
  match dict_get n creds with
  | None => not_found
  | Some credential =>
      t <- lift now ;;
      let credential' :=
        mkCredential (name credential) (value credential)
          (created_at credential) t (last_accessed credential) (JObj m) in
      set_self (fun o => with_credentials (dict_set n credential' (_credentials o)) o) ;;
      save_if_auto
  end.

(** [Vault.save] (lines 331-338). *)
Definition save : M St unit :=
  _save_vault ;;
  _save_config.


(** A caller holding the object stored under [n], as
    [get_all_credentials] hands it out, and calling a [Credential]
    mutator on it: the vault sees the change. *)
Definition on_credential (n : string)
    (f : Credential -> M World Credential) : M St unit :=
  creds <- gets (fun s => _credentials (self s)) ;;
  match dict_get n creds with
  | None => raise KeyError
  | Some c =>
      c' <- lift (f c) ;;
      set_self (fun o => with_credentials (dict_set n c' (_credentials o)) o)
  end.



(** [Vault._cleanup_backups] (lines 397-409); the loop of lines
    407-409 is [cleanup_while]. *)
Fixpoint cleanup_while (max_backups : Z) (backups : list string) : M St unit :=
  match backups with
  | [] => ret tt
  | oldest :: rest =>
      if Z.of_nat (List.length backups) >? max_backups then
        set_world (fun w => set_backup_files (dict_del oldest (backup_files w)) w) ;;
        cleanup_while max_backups rest
      else ret tt
  end.

Definition _cleanup_backups : M St unit :=
  st <- gets (fun s => settings (_config (self s))) ;;
  if negb (auto_backup st) then ret tt
  else
    let max_backups := backup_count st in
    if max_backups <=? 0 then ret tt
    else
      files <- gets (fun s => backup_files (world s)) ;;
      let backups := sorted (filter glob_backup (dict_keys files)) in
      cleanup_while max_backups backups.

Definition backup_name (t : datetime) : string :=
  "vault_" ++ strftime t ++ ".enc".

(** [Vault.backup] (lines 374-395), on the default backup directory. *)
Definition backup : M St string :=
  t <- lift now ;;
  let backup_path := backup_name t in
  f <- gets (fun s => vault_file (world s)) ;;
  match f with
  | None => raise FileNotFoundError
  | Some b =>
      set_world (fun w => set_backup_files (dict_set backup_path b (backup_files w)) w) ;;
      _cleanup_backups ;;
      ret backup_path
  end.

(** [Vault.change_password] (lines 411-433). *)
Definition change_password (new_password : string) : M St unit :=
  old_password <- gets (fun s => _password (self s)) ;;
  set_self (with_password (Some new_password)) ;;
  new_salt <- lift (urandom 16) ;;
  set_self (fun o => with_config (with_salt new_salt (_config o)) o) ;;
  try_except
    (_save_vault ;; _save_config)
    (fun e =>
       set_self (with_password old_password) ;;
       raise EncryptionError).

(** [Vault.init] (lines 435-467). *)
Definition init (force : bool) : M St unit :=
  f <- gets (fun s => vault_file (world s)) ;;
  if (match f with Some _ => true | None => false end) && negb force
  then raise VaultError
  else
    cfg <- lift fresh_config ;;
    set_self (with_config cfg) ;;
    set_self (with_credentials []) ;;
    _save_config ;;
    _save_vault ;;
    lift (logger INFO "Initialized new vault").

(** *** Clients

    The calls a client makes on a vault it holds; [CUpdateValue] and
    [CUpdateMetadata] are the [Credential] mutators applied to an object
    handed out by [get_all_credentials]. *)
Inductive call : Type :=
| CInit (force : bool)
| CAdd (n v : string) (m : option (pydict json))
| CGet (n : string)
| CRemove (n : string)
| CSetMetadata (n : string) (m : pydict json)
| CSave
| CChangePassword (p : string)
| CBackup
| CUpdateValue (n v : string)
| CUpdateMetadata (n : string) (patch : pydict json).

(** A call whose result the client drops. *)
Definition discard {A} (m : M St A) : M St unit :=
  fun s => match m s with
           | (Ok _, s') => (Ok tt, s')
           | (Raise e, s') => (Raise e, s')
           end.

Definition run_call (c : call) : M St unit :=
  match c with
  | CInit force => init force
  | CAdd n v m => add_credential n v m
  | CGet n => discard (get_credential n)
  | CRemove n => remove_credential n
  | CSetMetadata n m => set_metadata n m
  | CSave => save
  | CChangePassword p => change_password p
  | CBackup => discard backup
  | CUpdateValue n v => on_credential n (update_value v)
  | CUpdateMetadata n patch => on_credential n (update_metadata patch)
  end.

(** The dicts a client passes are Python dicts. *)
Definition call_wf (c : call) : bool :=
  match c with
  | CAdd _ _ (Some m) => json_wf (JObj m)
  | CSetMetadata _ m => json_wf (JObj m)
  | CUpdateMetadata _ patch => json_wf (JObj patch)
  | _ => true
  end.

(** What happens around the vault between calls: permissions and the
    environment variable change. *)
Definition set_environment (vw cw : bool) (env : option string) (w : World)
    : World :=
  mkWorld (vault_file w) (config_file w) (backup_files w) vw cw env
    (clock w) (ticks w) (entropy w) (drawn w) (log w).

(** The states of a client that starts in the world [w0] by constructing
    a vault, then goes on calling it, constructing it again (and keeping
    the new object or the old one), while the environment changes. *)
Inductive reachable (w0 : World) : St -> Prop :=
| reach_open pw auto o w :
    __init__ pw auto w0 = (Ok o, w) -> reachable w0 (mkSt w o)
| reach_call s c :
    reachable w0 s -> call_wf c = true -> reachable w0 (snd (run_call c s))
| reach_reopen s pw auto o w :
    reachable w0 s -> __init__ pw auto (world s) = (Ok o, w) ->
    reachable w0 (mkSt w o)
| reach_construct s pw auto :
    reachable w0 s ->
    reachable w0 (mkSt (snd (__init__ pw auto (world s))) (self s))
| reach_environment s vw cw env :
    reachable w0 s ->
    reachable w0 (mkSt (set_environment vw cw env (world s)) (self s)).

(** The clock never runs backwards. *)
Definition monotone (w : World) : Prop :=
  forall i, clock w i <= clock w (S i).

(** *** Invariants *)

(** The timestamps of a credential are in order and not in the future
    (stated only when [timed]). *)
Definition timely (timed : bool) (w : World) (c : Credential) : Prop :=
  timed = true ->
  created_at c <= updated_at c /\ created_at c <= clock w (ticks w).

(** A credential as the vault's own methods leave it under the key [k]. *)
Definition cred_ok (T : Credential -> Prop) (k : string) (c : Credential)
    : Prop :=
  name c = JStr k /\
  or_empty (metadata c) = metadata c /\
  json_wf (value c) = true /\
  json_wf (metadata c) = true /\
  T c.

Definition creds_ok (T : Credential -> Prop) (d : pydict Credential) : Prop :=
  dict_wf d /\ forall k c, In (k, c) d -> cred_ok T k c.

(** The store, when there is one, was written by [_save_vault]. *)
Definition disk_ok (T : Credential -> Prop) (w : World) : Prop :=
  match vault_file w with
  | None => True
  | Some b =>
      exists k iv d,
        b = fernet_encrypt k iv (json_dumps (credentials_data d)) /\
        creds_ok T d
  end.

Definition Inv (timed : bool) (s : St) : Prop :=
  (timed = true -> monotone (world s)) /\
  creds_ok (timely timed (world s)) (_credentials (self s)) /\
  disk_ok (timely timed (world s)) (world s).
End Vault.

(** ** Notions used in the statements *)

(** [frame w w']: [w'] differs from [w] at most in the store file, the
    random bytes drawn and the log. *)
Definition frame {ext : Externals} (w w' : World) : Prop :=
  config_file w' = config_file w /\
  backup_files w' = backup_files w /\
  vault_writable w' = vault_writable w /\
  config_writable w' = config_writable w /\
  environ_password w' = environ_password w /\
  clock w' = clock w /\
  ticks w' = ticks w.

(** [evolves w w']: the same clock, read no less far, and the same
    store. *)
Definition evolves {ext : Externals} (w w' : World) : Prop :=
  clock w' = clock w /\ (ticks w <= ticks w')%nat /\ vault_file w' = vault_file w.

(** [later w w']: [w'] is [w] after some readings of the clock, and
    nothing else. *)
Definition later {ext : Externals} (w w' : World) : Prop :=
  exists n, (ticks w <= n)%nat /\ w' = set_ticks n w.


(** The timestamp a field of a record carries: a non-empty string in ISO
    format. A missing field reads as [JNull]. *)
Definition stamp {ext : Externals} (j : json) : option datetime :=
  if truthy j then
    match j with
    | JStr s => fromisoformat s
    | _ => None
    end
  else None.

(** [t] is the current time, as read from the clock between [w] and
    [w']. *)
Definition reading {ext : Externals} (w w' : World) (t : datetime) : Prop :=
  exists i, (ticks w <= i < ticks w')%nat /\ t = clock w i.

(** A record that [from_dict] can index: an object with a name and a
    value. *)
Definition has_name_value (j : json) : bool :=
  match j with
  | JObj o => dict_mem "name" o && dict_mem "value" o
  | _ => false
  end.

(** A vault that can persist itself under the password [pw]: it has the
    password and a salt, its configuration is the one on disk, the store
    can be written, and so can the configuration when [save] is what
    persists. *)
Definition persistent {ext : Externals} (pw : string) (s : St) : Prop :=
  _password (self s) = Some pw /\
  pw <> "" /\
  salt (_config (self s)) <> [] /\
  config_file (world s) = Some (Parsed (_config (self s))) /\
  vault_writable (world s) = true /\
  (auto_save (self s) = false -> config_writable (world s) = true).

(** Dropping the handle: under auto-save nothing is pending, otherwise
    the client calls [save()] first. *)
Definition close {ext : Externals} : M St unit :=
  fun s => if auto_save (self s) then (Ok tt, s) else save s.

(** The record [add_credential] stores. *)
Definition added {ext : Externals} (w : World) (n v : string) (m : option (pydict json)) : Credential :=
  mkCredential (JStr n) (JStr v) (clock w (ticks w)) (clock w (S (ticks w))) None
    (JObj (match m with Some d => d | None => [] end)).

(** Names in strictly increasing order, each below all that follow. *)
Fixpoint ascending (l : list string) : bool :=
  match l with
  | [] => true
  | x :: r => forallb (String.ltb x) r && ascending r
  end.

(** [k] calls of [backup()] in a row. *)
Fixpoint backups {ext : Externals} (k : nat) (s : St) : St :=
  match k with
  | O => s
  | S k' => snd (backup (backups k' s))
  end.

(** The backup directory: other files [files0], then the backups named
    [l], all copies of [b]. *)
Definition directory {ext : Externals} (files0 : pydict blob) (b : blob) (l : list string)
    : pydict blob :=
  (files0 ++ map (fun n => (n, b)) l)%list.

(** [quiet s s']: from [s] to [s'] nothing happened to [config.json], to
    the backup directory, to the permissions or to the environment, and
    without auto-save nothing to the store, the random bytes or the log
    either. *)
Definition quiet {ext : Externals} (s s' : St) : Prop :=
  config_file (world s') = config_file (world s) /\
  backup_files (world s') = backup_files (world s) /\
  vault_writable (world s') = vault_writable (world s) /\
  config_writable (world s') = config_writable (world s) /\
  environ_password (world s') = environ_password (world s) /\
  (auto_save (self s) = false ->
   vault_file (world s') = vault_file (world s) /\
   drawn (world s') = drawn (world s) /\
   log (world s') = log (world s)).

(** [same_files w w']: the store, [config.json] and the backup directory
    are the same in [w'] as in [w]. *)
Definition same_files {ext : Externals} (w w' : World) : Prop :=
  vault_file w' = vault_file w /\
  config_file w' = config_file w /\
  backup_files w' = backup_files w.

(** ** The rest of [credential.py] *)



(** [Credential.to_json] (lines 140-147). *)
Definition to_json {ext : Externals} (c : Credential) : data :=
  json_dumps (to_dict c).

(** [Credential.from_json] (lines 149-161). *)
Definition from_json {ext : Externals} (json_str : data) : M World Credential :=
  match json_loads json_str with
  | Some d => from_dict d
  | None => raise JSONDecodeError
  end.

(** ** A reference instance of the externals

    Small stand-ins that satisfy the laws of [Externals] and compute, so
    that the model can be run on concrete vaults: the key is the pair of
    password and salt, a token carries its key next to the plaintext, JSON
    text is the JSON value, and timestamps print as decimal numbers. *)

Module Reference.
Definition rkey : Type := string * bytes.
Definition rblob : Type := rkey * bytes * json.

Fixpoint bytes_eqb (a b : bytes) : bool :=
  match a, b with
  | [], [] => true
  | x :: a', y :: b' => Byte.eqb x y && bytes_eqb a' b'
  | _, _ => false
  end.

Definition key_eqb (a b : rkey) : bool :=
  String.eqb (fst a) (fst b) && bytes_eqb (snd a) (snd b).

(** The key HMAC works with: the password padded with NUL bytes to the
    block of 64 bytes (a longer password stands for its own digest). *)
Fixpoint nuls (n : nat) : string :=
  match n with
  | O => ""
  | S k => String "000" (nuls k)
  end.

Definition hmac_key (p : string) : string :=
  if (String.length p <=? 64)%nat then p ++ nuls (64 - String.length p) else p.

Definition derive (p : string) (s : bytes) : rkey := (hmac_key p, s).

Definition encrypt (k : rkey) (iv : bytes) (d : json) : rblob := (k, iv, d).

Definition decrypt (k : rkey) (b : rblob) : option json :=
  let '(k0, _, d) := b in if key_eqb k0 k then Some d else None.

Definition iso (t : datetime) : string :=
  String "T" (NilZero.string_of_int (Z.to_int t)).

Definition of_iso (s : string) : option datetime :=
  match s with
  | String "T" r => option_map Z.of_int (NilZero.int_of_string r)
  | _ => None
  end.

(** Seconds, zero-padded to the fifteen characters of
    [%Y%m%d_%H%M%S]. *)
Definition stamp (t : datetime) : string :=
  let s := NilZero.string_of_int (Z.to_int (t / 1000000)) in
  String.concat "" (repeat "0" (15 - String.length s)) ++ s.
End Reference.

(** The reference instance satisfies the laws. *)

Lemma bytes_eqb_eq (a b : bytes) : Reference.bytes_eqb a b = true <-> a = b.
Proof.
  revert b; induction a as [|x a IH]; intros [|y b]; simpl; split; try easy.
  - intros [Hx Hr]%andb_true_iff.
    apply Byte.byte_dec_bl in Hx. apply IH in Hr. now subst.
  - intros [= -> ->]. apply andb_true_iff; split.
    + now apply Byte.byte_dec_lb.
    + now apply IH.
Qed.

Lemma key_eqb_eq (a b : Reference.rkey) : Reference.key_eqb a b = true <-> a = b.
Proof.
  destruct a as [p s], b as [p' s']; unfold Reference.key_eqb; simpl.
  rewrite andb_true_iff, String.eqb_eq, bytes_eqb_eq.
  split; [intros [-> ->] | intros [= -> ->]]; auto.
Qed.

Lemma reference_iso_roundtrip (t : datetime) :
  Reference.of_iso (Reference.iso t) = Some t.
Proof.
  unfold Reference.of_iso, Reference.iso.
  rewrite NilZero.isi.
  - simpl. now rewrite DecimalZ.of_to.
  - destruct t; simpl; try discriminate.
    intros [= H]. now apply DecimalPos.Unsigned.to_uint_nonnil in H.
  - destruct t; simpl; try discriminate.
    intros [= H]. now apply DecimalPos.Unsigned.to_uint_nonnil in H.
Qed.

Lemma length_append_char (p : string) (c : ascii) :
  String.length (p ++ String c "") = S (String.length p).
Proof. induction p as [|a p IH]; cbn; [reflexivity | now rewrite IH]. Qed.

Lemma append_nul_nuls (p : string) (n : nat) :
  ((p ++ String "000" "") ++ Reference.nuls n)%string = (p ++ Reference.nuls (S n))%string.
Proof. induction p as [|a p IH]; cbn; [reflexivity | now rewrite IH]. Qed.

Lemma hmac_key_nul (p : string) :
  (String.length p < 64)%nat ->
  Reference.hmac_key (p ++ String "000" "") = Reference.hmac_key p.
Proof.
  intros Hlt. unfold Reference.hmac_key. rewrite length_append_char.
  destruct (Nat.leb_spec (S (String.length p)) 64) as [_|H]; [|lia].
  destruct (Nat.leb_spec (String.length p) 64) as [_|H]; [|lia].
  rewrite append_nul_nuls. f_equal. f_equal. lia.
Qed.

#[refine] Instance reference : Externals := {
  key := Reference.rkey;
  blob := Reference.rblob;
  data := json;
  pbkdf2 := Reference.derive;
  fernet_encrypt := Reference.encrypt;
  fernet_decrypt := Reference.decrypt;
  json_dumps := fun j => j;
  json_loads := fun d => Some d;
  isoformat := Reference.iso;
  fromisoformat := Reference.of_iso;
  strftime := Reference.stamp
}.
Proof.
  - intros k k'. destruct (Reference.key_eqb k k') eqn:E.
    + left. now apply key_eqb_eq.
    + right. intros H. apply key_eqb_eq in H. congruence.
  - intros k iv d. unfold Reference.decrypt, Reference.encrypt.
    now rewrite (proj2 (key_eqb_eq k k) eq_refl).
  - intros k k' iv d Hk. unfold Reference.decrypt, Reference.encrypt.
    destruct (Reference.key_eqb k k') eqn:E; [|reflexivity].
    now apply key_eqb_eq in E.
  - intros p s Hlt. unfold Reference.derive. now rewrite hmac_key_nul.
  - reflexivity.
  - apply reference_iso_roundtrip.
  - intros t. discriminate.
Defined.

(** ** A concrete vault

    A directory without a store, a clock that advances by one second at
    each reading, and the states of a short session on it. *)

Module Demo.
Definition noise (n : nat) : Byte.byte :=
  match Byte.of_nat (Nat.modulo n 256) with
  | Some x => x
  | None => Byte.x00
  end.

Definition w0 : World :=
  mkWorld None None [] true true None
    (fun n => Z.of_nat n * 1000000) 0 noise 0 [].

(** The state after running [m], whatever it returned. *)
Definition after {A} (m : M St A) (s : St) : St := snd (m s).

(** [Vault(password=pw)] in the world [w]; a failed construction leaves
    an object without password or credentials. *)
Definition construct (pw : string) (w : World) : St :=
  match __init__ (Some pw) true w with
  | (Ok o, w') => mkSt w' o
  | (Raise _, w') =>
      mkSt w' (mkVault true None [] (mkConfig "" 0 [] (mkSettings true true 5)))
  end.

(** [Vault(password="hunter2")] then [init()]. *)
Definition fresh : St := after (run_call (CInit false)) (construct "hunter2" w0).

(** ... then [add_credential("k", "v1", {"env": "prod"})]. *)
Definition one : St :=
  after (run_call (CAdd "k" "v1" (Some [("env", JStr "prod")]))) fresh.

(** ... or [add_credential("api-key", "x")] and
    [add_credential("db url", "y")]. *)
Definition two : St :=
  after (run_call (CAdd "db url" "y" None))
    (after (run_call (CAdd "api-key" "x" None)) fresh).

(** The vault [one] with [config.json] made read-only. *)
Definition readonly : St :=
  mkSt (set_environment true false None (world one)) (self one).

(** The vault [one] with [backup_count] set to 3, under a clock that
    advances by [step] microseconds at each reading. *)
Definition paced (step : Z) : St :=
  mkSt (mkWorld (vault_file (world one)) (config_file (world one))
          (backup_files (world one)) true true None
          (fun n => Z.of_nat n * step) (ticks (world one))
          noise (drawn (world one)) (log (world one)))
       (with_config
          (mkConfig (cfg_created_at (_config (self one)))
             (version (_config (self one))) (salt (_config (self one)))
             (mkSettings true true 3))
          (self one)).

(** The vault [one] with [auto_backup] switched off. *)
Definition unpruned : St :=
  mkSt (world one)
       (with_config
          (mkConfig (cfg_created_at (_config (self one)))
             (version (_config (self one))) (salt (_config (self one)))
             (mkSettings true false 5))
          (self one)).

(** The directory of [one] after its store was rewritten, under the same
    key, to hold one record that has an [updated_at] and no
    [created_at]. *)
Definition edited : World :=
  set_vault_file
    (Some (fernet_encrypt (pbkdf2 "hunter2" (salt (_config (self one)))) []
             (json_dumps
                (JObj [("k", JObj [("name", JStr "k"); ("value", JStr "v1");
                                   ("updated_at", JStr (isoformat 1000000))])]))))
    (world one).

(** [Vault(password="hunter2")] on the empty directory, without
    [init()], ... *)
Definition bare : St := construct "hunter2" w0.

(** ... then [add_credential("k", "v1", {"env": "prod"})]. *)
Definition bare_one : St :=
  after (run_call (CAdd "k" "v1" (Some [("env", JStr "prod")]))) bare.

(** The store of [one]. *)
Definition stored : blob :=
  match vault_file (world one) with
  | Some b => b
  | None => (("", []), [], JNull)
  end.
End Demo.

(** * Properties *)

(** ** Dictionaries *)

Section PyDictFacts.
Context {V : Type}.
Implicit Types (d : pydict V) (k : string) (v : V).

Lemma dict_get_set_same k v d : dict_get k (dict_set k v d) = Some v.
Proof.
  induction d as [|[k' v'] r IH]; simpl.
  - now rewrite String.eqb_refl.
  - destruct (String.eqb k k') eqn:E; simpl; rewrite ?String.eqb_refl, ?E; auto.
Qed.

Lemma dict_get_set_other k k' v d :
  k' <> k -> dict_get k' (dict_set k v d) = dict_get k' d.
Proof.
  intros Hne. induction d as [|[k0 v0] r IH]; simpl.
  - now apply String.eqb_neq in Hne as ->.
  - destruct (String.eqb k k0) eqn:E; simpl.
    + apply String.eqb_eq in E; subst k0.
      now apply String.eqb_neq in Hne as ->.
    + now rewrite IH.
Qed.

Lemma dict_get_del_same k d : dict_get k (dict_del k d) = None.
Proof.
  induction d as [|[k0 v0] r IH]; simpl; auto.
  destruct (String.eqb k k0) eqn:E; simpl; rewrite ?E; auto.
Qed.

Lemma dict_get_del_other k k' d :
  k' <> k -> dict_get k' (dict_del k d) = dict_get k' d.
Proof.
  intros Hne. induction d as [|[k0 v0] r IH]; simpl; auto.
  destruct (String.eqb k k0) eqn:E; simpl.
  - apply String.eqb_eq in E; subst k0.
    now apply String.eqb_neq in Hne as ->.
  - now rewrite IH.
Qed.

Lemma dict_get_In k v d : dict_get k d = Some v -> In (k, v) d.
Proof.
  induction d as [|[k0 v0] r IH]; simpl; [discriminate|].
  destruct (String.eqb_spec k k0) as [->|Hne].
  - intros [= ->]. now left.
  - intros H. right. now apply IH.
Qed.

Lemma dict_get_None k d : dict_get k d = None <-> ~ In k (dict_keys d).
Proof.
  induction d as [|[k0 v0] r IH]; simpl.
  - tauto.
  - destruct (String.eqb_spec k k0) as [->|Hne].
    + split; [discriminate | intros H; exfalso; apply H; now left].
    + rewrite IH. split.
      * intros H [E|E]; [congruence | tauto].
      * tauto.
Qed.

Lemma dict_In_get k v d : dict_wf d -> In (k, v) d -> dict_get k d = Some v.
Proof.
  unfold dict_wf. induction d as [|[k0 v0] r IH]; simpl; [tauto|].
  intros Hnd [[= -> ->]|Hin].
  - now rewrite String.eqb_refl.
  - inversion Hnd as [|? ? Hnot Hr]; subst.
    destruct (String.eqb_spec k k0) as [->|Hne].
    + exfalso. apply Hnot. change k0 with (fst (k0, v)). now apply in_map.
    + now apply IH.
Qed.

Lemma dict_keys_set k v d :
  dict_keys (dict_set k v d) =
  if dict_mem k d then dict_keys d else (dict_keys d ++ [k])%list.
Proof.
  unfold dict_mem. induction d as [|[k0 v0] r IH]; simpl; auto.
  destruct (String.eqb_spec k k0) as [->|Hne]; simpl; auto.
  rewrite IH. now destruct (dict_get k r).
Qed.

Lemma dict_wf_set k v d : dict_wf d -> dict_wf (dict_set k v d).
Proof.
  unfold dict_wf. rewrite dict_keys_set. unfold dict_mem.
  destruct (dict_get k d) eqn:E; auto.
  intros Hnd. apply dict_get_None in E.
  apply NoDup_app; auto.
  - constructor; [intros [] | constructor].
  - intros x Hx [<-|[]]. contradiction.
Qed.

Lemma dict_del_In k d k' v' :
  In (k', v') (dict_del k d) -> k' <> k /\ In (k', v') d.
Proof.
  induction d as [|[k0 v0] r IH]; simpl; [tauto|].
  destruct (String.eqb_spec k k0) as [->|Hne]; simpl.
  - intros H. destruct (IH H). auto.
  - intros [[= <- <-]|H]; [split; [congruence | now left]|].
    destruct (IH H). auto.
Qed.

Lemma dict_wf_del k d : dict_wf d -> dict_wf (dict_del k d).
Proof.
  unfold dict_wf. induction d as [|[k0 v0] r IH]; simpl; auto.
  intros Hnd. inversion Hnd as [|? ? Hnot Hr]; subst.
  destruct (String.eqb k k0); simpl; auto.
  constructor; auto.
  intros Hin. apply Hnot. unfold dict_keys in Hin.
  apply in_map_iff in Hin as [[k1 v1] [E Hin]]; simpl in E; subst k1.
  apply dict_del_In in Hin as [_ Hin].
  change k0 with (fst (k0, v1)). now apply in_map.
Qed.

(** An entry of [d[k] = v] is the new one or an old one under another
    key. *)
Lemma dict_set_In k v d k' v' :
  dict_wf d -> In (k', v') (dict_set k v d) ->
  (k' = k /\ v' = v) \/ (k' <> k /\ In (k', v') d).
Proof.
  intros Hwf Hin.
  apply dict_In_get in Hin; [|now apply dict_wf_set].
  destruct (String.eqb_spec k' k) as [->|Hne].
  - rewrite dict_get_set_same in Hin. injection Hin as <-. now left.
  - rewrite dict_get_set_other in Hin by assumption.
    right. split; auto. now apply dict_get_In.
Qed.

(** Filling an empty dict from the items of a dict gives that dict
    back. *)
Lemma dict_update_fresh acc d :
  NoDup (dict_keys acc ++ dict_keys d)%list -> dict_update acc d = (acc ++ d)%list.
Proof.
  unfold dict_update. revert acc.
  induction d as [|[k0 v0] r IH]; intros acc Hnd; simpl.
  - now rewrite app_nil_r.
  - assert (Hset : dict_set k0 v0 acc = (acc ++ [(k0, v0)])%list).
    { assert (Hk : ~ In k0 (dict_keys acc)).
      { apply NoDup_remove_2 in Hnd. intros H. apply Hnd.
        apply in_or_app. now left. }
      clear -Hk. induction acc as [|[k1 v1] a IHa]; simpl; auto.
      destruct (String.eqb_spec k0 k1) as [->|Hne].
      - exfalso. apply Hk. now left.
      - rewrite IHa; auto. intros H. apply Hk. now right. }
    rewrite Hset, IH.
    + now rewrite <- app_assoc.
    + unfold dict_keys in *. rewrite map_app, <- app_assoc. exact Hnd.
Qed.
End PyDictFacts.

(** ** Serialization *)

Lemma nodupb_NoDup (l : list string) : nodupb l = true <-> NoDup l.
Proof.
  induction l as [|x r IH]; simpl.
  - split; [constructor | reflexivity].
  - rewrite andb_true_iff, negb_true_iff, IH. split.
    + intros [Hx Hr]. constructor; auto.
      intros Hin. apply not_true_iff_false in Hx. apply Hx.
      apply existsb_exists. exists x. split; auto. apply String.eqb_refl.
    + intros H. inversion H as [|? ? Hx Hr]; subst. split; auto.
      apply not_true_iff_false. intros He.
      apply existsb_exists in He as [y [Hy E]].
      apply String.eqb_eq in E. now subst.
Qed.

Section Serialization.
Context {ext : Externals}.

Lemma truthy_isoformat (t : datetime) : truthy (JStr (isoformat t)) = true.
Proof.
  simpl. apply negb_true_iff. apply String.eqb_neq. apply iso_nonempty.
Qed.

Lemma parse_datetime_isoformat (t : datetime) (w : World) :
  parse_datetime (JStr (isoformat t)) w = (Ok (Some t), w).
Proof.
  unfold parse_datetime. rewrite truthy_isoformat. simpl.
  now rewrite iso_roundtrip.
Qed.

(** A record written by [to_dict] reads back as the credential it was
    written from, and takes no reading of the clock. *)
Lemma from_dict_to_dict (c : Credential) (w : World) :
  from_dict (to_dict c) w =
  (Ok (mkCredential (name c) (value c) (created_at c) (updated_at c)
         (last_accessed c) (or_empty (metadata c))), w).
Proof.
  unfold from_dict, to_dict, json_get, json_index, bind. simpl.
  rewrite !parse_datetime_isoformat.
  destruct (last_accessed c) as [t|].
  - now rewrite parse_datetime_isoformat.
  - reflexivity.
Qed.

Lemma from_dict_to_dict_normal (c : Credential) (w : World) :
  or_empty (metadata c) = metadata c ->
  from_dict (to_dict c) w = (Ok c, w).
Proof.
  intros H. rewrite from_dict_to_dict, H. now destruct c.
Qed.

Lemma load_items_saved (d acc : pydict Credential) (w : World) :
  (forall k c, In (k, c) d -> or_empty (metadata c) = metadata c) ->
  load_items (map (fun kv => (fst kv, to_dict (snd kv))) d) acc w =
  (Ok (dict_update acc d), w).
Proof.
  revert acc. induction d as [|[k c] r IH]; intros acc Hn;
    cbn [map load_items fst snd].
  - reflexivity.
  - unfold bind. rewrite from_dict_to_dict_normal.
    + apply IH. intros k' c' Hin. apply (Hn k'). now right.
    + apply (Hn k). now left.
Qed.

Lemma json_wf_to_dict (c : Credential) :
  json_wf (to_dict c) = json_wf (name c) && json_wf (value c) && json_wf (metadata c).
Proof.
  unfold to_dict. cbn -[json_wf isoformat].
  change (json_wf (JObj ?o)) with (json_wf (JObj o)).
  simpl. destruct (last_accessed c); simpl;
    rewrite ?andb_true_r; now rewrite ?andb_assoc.
Qed.

Lemma json_wf_credentials_data (T : Credential -> Prop) (d : pydict Credential) :
  creds_ok T d -> json_wf (credentials_data d) = true.
Proof.
  intros [Hwf Hok]. unfold credentials_data. cbn [json_wf].
  apply andb_true_iff. split.
  - apply nodupb_NoDup. rewrite map_map. exact Hwf.
  - apply forallb_forall. intros [k j] Hin.
    apply in_map_iff in Hin as [[k' c] [[= <- <-] Hin]].
    cbn [snd]. destruct (Hok _ _ Hin) as (Hn & _ & Hv & Hm & _).
    rewrite json_wf_to_dict, Hn, Hv, Hm. reflexivity.
Qed.

End Serialization.

(** ** Saving and loading the store *)

(** Unfolds the monad down to functions on states. *)
Ltac msimpl :=
  cbn [fst snd world self vault_file config_file backup_files vault_writable
       config_writable environ_password clock ticks entropy drawn log
       set_vault_file set_config_file set_backup_files set_ticks set_drawn
       set_log set_environment auto_save _password _credentials _config
       with_password with_credentials with_config with_salt
       salt settings cfg_created_at version] in *.

Ltac mrun :=
  unfold not_found, logger, set_self, set_world, lift, discard,
    try_except, now, urandom, bind, ret, raise, gets, modify in *;
  msimpl.

Section Store.
Context {ext : Externals}.

Lemma frame_refl (w : World) : frame w w.
Proof. repeat split. Qed.

(** [_save_vault] leaves the object alone; it either fails with
    [EncryptionError] and the store untouched, or replaces the store by
    the encryption of the current credentials. *)
Lemma _save_vault_cases (s : St) :
  exists w', frame (world s) w' /\
    ((_save_vault s = (Raise EncryptionError, mkSt w' (self s)) /\
      vault_file w' = vault_file (world s)) \/
     (exists k iv,
        _save_vault s = (Ok tt, mkSt w' (self s)) /\
        vault_file w' =
          Some (fernet_encrypt k iv
                  (json_dumps (credentials_data (_credentials (self s))))))).
Proof.
  destruct s as [w o]. unfold _save_vault, _derive_key, urandom. mrun.
  destruct (salt (_config o)) as [|b sl]; msimpl;
    destruct (_password o) as [p|]; msimpl;
    try destruct (vault_writable w) eqn:Ew; msimpl;
    eexists; (split; [|first
      [ right; do 2 eexists; split; [reflexivity | reflexivity]
      | left; split; reflexivity ]]);
    repeat split.
Qed.

(** When it can derive a key and write, it writes under the key of the
    password and the configured salt. *)
Lemma _save_vault_ok (s : St) (p : string) :
  _password (self s) = Some p ->
  salt (_config (self s)) <> [] ->
  vault_writable (world s) = true ->
  exists iv w',
    frame (world s) w' /\
    _save_vault s = (Ok tt, mkSt w' (self s)) /\
    vault_file w' =
      Some (fernet_encrypt (pbkdf2 p (salt (_config (self s)))) iv
              (json_dumps (credentials_data (_credentials (self s))))).
Proof.
  destruct s as [w o]. cbn [world self]. intros Hp Hs Hw.
  unfold _save_vault, _derive_key, urandom. mrun.
  rewrite Hp. destruct (salt (_config o)) as [|b sl]; [congruence|].
  msimpl. rewrite Hw. msimpl.
  do 2 eexists. split; [|split; reflexivity]. repeat split.
Qed.

Lemma _save_config_cases (s : St) :
  (_save_config s = (Raise OSError, s) /\ config_writable (world s) = false) \/
  (_save_config s =
     (Ok tt, mkSt (set_config_file (Some (Parsed (_config (self s)))) (world s))
               (self s)) /\
   config_writable (world s) = true).
Proof.
  destruct s as [w o]. unfold _save_config. mrun.
  destruct (config_writable w); [right | left]; split; reflexivity.
Qed.

End Store.

(** ** The invariant of the reachable states *)

Unset Implicit Arguments.

Section Invariant.
Context {ext : Externals}.
Variable timed : bool.

Lemma evolves_refl (w : World) : evolves w w.
Proof. repeat split. apply Nat.le_refl. Qed.

Lemma evolves_trans (w1 w2 w3 : World) :
  evolves w1 w2 -> evolves w2 w3 -> evolves w1 w3.
Proof.
  intros (Hc & Ht & Hv) (Hc' & Ht' & Hv'). repeat split; try congruence.
  eapply Nat.le_trans; eauto.
Qed.

Lemma frame_evolves (w w' : World) :
  frame w w' -> vault_file w' = vault_file w -> evolves w w'.
Proof.
  intros (_ & _ & _ & _ & _ & Hc & Ht) Hv. repeat split; auto.
  rewrite Ht. apply Nat.le_refl.
Qed.

Lemma monotone_le (w : World) (i j : nat) :
  monotone w -> (i <= j)%nat -> clock w i <= clock w j.
Proof.
  intros Hm Hij. induction Hij as [|j Hij IH].
  - apply Z.le_refl.
  - eapply Z.le_trans; [exact IH | apply Hm].
Qed.

Lemma monotone_evolves (w w' : World) :
  clock w' = clock w -> monotone w -> monotone w'.
Proof. unfold monotone. intros -> H. exact H. Qed.

Lemma timely_evolves (w w' : World) (c : Credential) :
  (timed = true -> monotone w) -> clock w' = clock w ->
  (ticks w <= ticks w')%nat ->
  timely timed w c -> timely timed w' c.
Proof.
  unfold timely. intros Hm Hc Ht H Htimed.
  destruct (H Htimed) as [H1 H2]. split; auto.
  rewrite Hc. eapply Z.le_trans; [exact H2|].
  apply monotone_le; auto.
Qed.

Lemma creds_ok_weaken (T T' : Credential -> Prop) (d : pydict Credential) :
  (forall c, T c -> T' c) -> creds_ok T d -> creds_ok T' d.
Proof.
  intros HT [Hwf Hok]. split; auto.
  intros k c Hin. destruct (Hok k c Hin) as (? & ? & ? & ? & ?).
  repeat split; auto.
Qed.

Lemma creds_ok_evolves (w w' : World) (d : pydict Credential) :
  (timed = true -> monotone w) -> clock w' = clock w ->
  (ticks w <= ticks w')%nat ->
  creds_ok (timely timed w) d -> creds_ok (timely timed w') d.
Proof.
  intros Hm Hc Ht. apply creds_ok_weaken.
  intros c. now apply timely_evolves.
Qed.

Lemma disk_ok_evolves (w w' : World) :
  (timed = true -> monotone w) -> evolves w w' ->
  disk_ok (timely timed w) w -> disk_ok (timely timed w') w'.
Proof.
  intros Hm (Hc & Ht & Hv). unfold disk_ok. rewrite Hv.
  destruct (vault_file w); auto.
  intros (k & iv & d & -> & Hd). exists k, iv, d. split; auto.
  now apply (creds_ok_evolves w w' d Hm Hc Ht).
Qed.

(** The world moves on and the object keeps its credentials. *)
Lemma Inv_evolves (w w' : World) (o o' : Vault) :
  Inv timed (mkSt w o) -> evolves w w' ->
  _credentials o' = _credentials o ->
  Inv timed (mkSt w' o').
Proof.
  intros (Hm & Hc & Hd) Hev Ho. unfold Inv in *. msimpl.
  destruct Hev as (Hck & Ht & Hv). split; [|split].
  - intros Ht'. eapply monotone_evolves; eauto.
  - rewrite Ho. apply (creds_ok_evolves w w' _ Hm Hck Ht Hc).
  - apply (disk_ok_evolves w w' Hm); [repeat split; auto | exact Hd].
Qed.

(** The object gets other credentials. *)
Lemma Inv_credentials (w : World) (o o' : Vault) :
  Inv timed (mkSt w o) ->
  creds_ok (timely timed w) (_credentials o') ->
  Inv timed (mkSt w o').
Proof.
  intros (Hm & _ & Hd) Hc. split; [|split]; auto.
Qed.

Lemma Inv_save_vault (s : St) : Inv timed s -> Inv timed (snd (_save_vault s)).
Proof.
  intros HI. destruct (_save_vault_cases s) as (w' & Hf & [[E Hv] | (k & iv & E & Hv)]);
    rewrite E; cbn [snd]; destruct s as [w o]; msimpl.
  - eapply Inv_evolves; eauto. now apply frame_evolves.
  - destruct Hf as (_ & _ & _ & _ & _ & Hc & Ht).
    destruct HI as (Hm & Hcr & Hd). msimpl.
    assert (Hcr' : creds_ok (timely timed w') (_credentials o)).
    { apply (creds_ok_evolves w w' _ Hm Hc); auto. rewrite Ht. apply Nat.le_refl. }
    split; [|split]; msimpl; auto.
    + intros Ht'. eapply monotone_evolves; eauto.
    + unfold disk_ok. rewrite Hv. exists k, iv, (_credentials o). auto.
Qed.

Lemma Inv_save_config (s : St) : Inv timed s -> Inv timed (snd (_save_config s)).
Proof.
  intros HI. destruct (_save_config_cases s) as [[E _] | [E _]];
    rewrite E; cbn [snd]; [exact HI|].
  destruct s as [w o]. msimpl. eapply Inv_evolves; eauto.
  split; [|split]; auto.
Qed.

Lemma Inv_save_if_auto (s : St) : Inv timed s -> Inv timed (snd (save_if_auto s)).
Proof.
  intros HI. unfold save_if_auto, bind, gets, ret.
  destruct (auto_save (self s)); [now apply Inv_save_vault | exact HI].
Qed.

End Invariant.

(** ** Reading records *)

Section Reading.
Context {ext : Externals}.

Lemma later_refl (w : World) : later w w.
Proof. exists (ticks w). split; [apply Nat.le_refl | now destruct w]. Qed.

Lemma later_trans (w1 w2 w3 : World) : later w1 w2 -> later w2 w3 -> later w1 w3.
Proof.
  intros (n & Hn & ->) (m & Hm & ->). exists m. msimpl. split.
  - eapply Nat.le_trans; eauto.
  - reflexivity.
Qed.

Lemma later_tick (w : World) : later w (set_ticks (S (ticks w)) w).
Proof. exists (S (ticks w)). split; auto. Qed.

Lemma later_evolves (w w' : World) : later w w' -> evolves w w'.
Proof. intros (n & Hn & ->). repeat split. exact Hn. Qed.

Lemma later_log (w w' : World) : later w w' -> log w' = log w.
Proof. intros (n & Hn & ->). reflexivity. Qed.

(** [parse_datetime] never raises. *)
Lemma parse_datetime_later (j : json) (w : World) :
  exists x w', parse_datetime j w = (Ok x, w') /\ later w w'.
Proof.
  unfold parse_datetime. destruct (truthy j); cbn [negb].
  2:{ do 2 eexists. split; [reflexivity | apply later_refl]. }
  destruct j; try (do 2 eexists; split; [reflexivity | apply later_tick]).
  destruct (fromisoformat s);
    do 2 eexists; (split; [reflexivity|]); [apply later_refl | apply later_tick].
Qed.

Lemma or_now_later (x : option datetime) (w : World) :
  exists t w', or_now x w = (Ok t, w') /\ later w w'.
Proof.
  destruct x as [t|]; do 2 eexists; (split; [reflexivity|]);
    [apply later_refl | apply later_tick].
Qed.

Lemma from_dict_later (d : json) (w : World) :
  later w (snd (from_dict d w)).
Proof.
  unfold from_dict. destruct d; try apply later_refl.
  destruct (parse_datetime_later (json_get "created_at" o) w) as (c & w1 & E1 & L1).
  destruct (parse_datetime_later (json_get "updated_at" o) w1) as (u & w2 & E2 & L2).
  destruct (parse_datetime_later (json_get "last_accessed" o) w2) as (la & w3 & E3 & L3).
  destruct (or_now_later c w3) as (c' & w4 & E4 & L4).
  destruct (or_now_later u w4) as (u' & w5 & E5 & L5).
  unfold bind, json_index. rewrite E1, E2, E3.
  assert (L13 : later w w3) by eauto using later_trans.
  destruct (dict_get "name" o); [|exact L13].
  destruct (dict_get "value" o); [|exact L13].
  unfold ret, raise. rewrite E4, E5. cbn [snd].
  eauto using later_trans.
Qed.

Lemma load_items_later (items : pydict json) (acc : pydict Credential) (w : World) :
  later w (snd (load_items items acc w)).
Proof.
  revert acc w. induction items as [|[k v] r IH]; intros acc w; cbn [load_items].
  - apply later_refl.
  - unfold bind. pose proof (from_dict_later v w) as L.
    destruct (from_dict v w) as [[c|e] w1]; cbn [snd] in *; auto.
    eapply later_trans; [exact L | apply IH].
Qed.

End Reading.

(** ** Opening a vault *)

Section Opening.
Context {ext : Externals}.

Lemma _load_config_ok (w : World) :
  exists cfg w', _load_config w = (Ok cfg, w') /\ evolves w w' /\
    config_file w' = config_file w /\
    (forall c, config_file w = Some (Parsed c) -> cfg = c /\ w' = w).
Proof.
  unfold _load_config, fresh_config. mrun.
  destruct (config_file w) as [[|c]|] eqn:E; msimpl;
    do 2 eexists; (split; [reflexivity|]); msimpl;
    (split; [repeat split; auto with arith|]); (split; [auto|]);
    intros c' [=]; subst; auto.
Qed.

Lemma _derive_key_cases (pw : option string) (sl : bytes) (w : World) :
  exists w', evolves w w' /\ config_file w' = config_file w /\
    match pw with
    | None => _derive_key pw sl w = (Raise AttributeError, w')
    | Some p =>
        exists sl', _derive_key pw sl w = (Ok (pbkdf2 p sl', sl'), w') /\
                    (sl <> [] -> sl' = sl /\ w' = w)
    end.
Proof.
  unfold _derive_key. mrun.
  destruct sl as [|b sl]; destruct pw as [p|]; msimpl.
  - exists (set_drawn (drawn w + 16) w). msimpl.
    split; [repeat split; auto|]. split; [reflexivity|].
    eexists. split; [reflexivity | congruence].
  - exists (set_drawn (drawn w + 16) w). msimpl.
    split; [repeat split; auto|]. split; reflexivity.
  - exists w. split; [apply evolves_refl|]. split; [reflexivity|].
    eexists. split; [reflexivity | auto].
  - exists w. split; [apply evolves_refl|]. split; reflexivity.
Qed.

(** Loading a store that [_save_vault] wrote: the credentials that were
    saved, or [EncryptionError]. *)
Lemma _load_vault_saved (T : Credential -> Prop) (s : St) k iv d :
  vault_file (world s) =
    Some (fernet_encrypt k iv (json_dumps (credentials_data d))) ->
  creds_ok T d ->
  evolves (world s) (world (snd (_load_vault s))) /\
  ((fst (_load_vault s) = Ok tt /\ _credentials (self (snd (_load_vault s))) = d) \/
   fst (_load_vault s) = Raise EncryptionError).
Proof.
  destruct s as [w o]. msimpl. intros Hv Hd.
  unfold _load_vault. mrun. rewrite Hv. msimpl.
  destruct (_derive_key_cases (_password o) (salt (_config o)) w)
    as (w1 & Hev & _ & Hk).
  destruct (_password o) as [p|].
  2:{ rewrite Hk. msimpl. split; [|now right].
      destruct Hev as (? & ? & ?). repeat split; auto. }
  destruct Hk as (sl' & -> & _). msimpl.
  destruct (key_eq_dec k (pbkdf2 p sl')) as [<-|Hne].
  - rewrite fernet_roundtrip, (json_roundtrip _ (json_wf_credentials_data Hd)).
    unfold credentials_data.
    rewrite load_items_saved by (intros k' c Hin; apply Hd in Hin; apply Hin).
    msimpl. split; [exact Hev | left; split; auto].
    destruct Hd as [Hwf _]. rewrite dict_update_fresh; auto.
  - rewrite (fernet_authentic _ _ Hne). msimpl. split; [|now right].
    destruct Hev as (? & ? & ?). repeat split; auto.
Qed.

(** Constructing a vault over a store that [_save_vault] wrote: the
    world only moves on, and the object holds saved credentials. *)
Lemma __init___saved (T : Credential -> Prop) (w : World) pw auto :
  disk_ok T w ->
  evolves w (snd (__init__ pw auto w)) /\
  forall o, fst (__init__ pw auto w) = Ok o -> creds_ok T (_credentials o).
Proof.
  intros Hd. unfold __init__. mrun.
  destruct (no_password (password_or_environ pw (environ_password w)) &&
            match vault_file w with Some _ => true | None => false end) eqn:Eno.
  { msimpl. split; [apply evolves_refl | discriminate]. }
  destruct (_load_config_ok w) as (cfg & w1 & -> & Hev & _ & _). msimpl.
  unfold disk_ok in Hd.
  destruct (vault_file w) as [b|] eqn:Ev.
  - destruct Hd as (k & iv & d & -> & Hd).
    set (s := mkSt w1 (mkVault auto (password_or_environ pw (environ_password w)) [] cfg)).
    assert (Hv1 : vault_file (world s) =
                  Some (fernet_encrypt k iv (json_dumps (credentials_data d)))).
    { unfold s. msimpl. destruct Hev as (_ & _ & ->). exact Ev. }
    destruct (_load_vault_saved T s k iv d Hv1 Hd) as [Hev' Hr].
    destruct (_load_vault s) as [[[]|e] s']; msimpl.
    + split; [eapply evolves_trans; eauto|].
      intros o [= <-]. destruct Hr as [[_ ->]|]; [exact Hd | discriminate].
    + split; [eapply evolves_trans; eauto | discriminate].
  - msimpl. split; [exact Hev|]. intros o [= <-]. msimpl.
    split; [constructor | intros k c []].
Qed.

End Opening.

(** ** Every call keeps the invariant *)

Section Preservation.
Context {ext : Externals}.
Variable timed : bool.

Lemma creds_ok_set (T : Credential -> Prop) (d : pydict Credential) k c :
  creds_ok T d -> cred_ok T k c -> creds_ok T (dict_set k c d).
Proof.
  intros [Hwf Hok] Hc. split; [now apply dict_wf_set|].
  intros k' c' Hin. apply dict_set_In in Hin; auto.
  destruct Hin as [[-> ->]|[_ Hin]]; auto.
Qed.

Lemma creds_ok_del (T : Credential -> Prop) (d : pydict Credential) k :
  creds_ok T d -> creds_ok T (dict_del k d).
Proof.
  intros [Hwf Hok]. split; [now apply dict_wf_del|].
  intros k' c' Hin. apply dict_del_In in Hin as [_ Hin]. auto.
Qed.

Lemma creds_ok_get (T : Credential -> Prop) (d : pydict Credential) k c :
  creds_ok T d -> dict_get k d = Some c -> cred_ok T k c.
Proof. intros [_ Hok] Hg. apply Hok. now apply dict_get_In. Qed.

Lemma or_empty_idem (j : json) : or_empty (or_empty j) = or_empty j.
Proof. unfold or_empty. destruct (truthy j) eqn:E; [now rewrite E | reflexivity]. Qed.

Lemma or_empty_obj (m : pydict json) : or_empty (JObj m) = JObj m.
Proof. now destruct m. Qed.

Lemma json_wf_or_empty (j : json) : json_wf j = true -> json_wf (or_empty j) = true.
Proof. unfold or_empty. now destruct (truthy j). Qed.

(** The world after [n] more readings of the clock. *)
Lemma Inv_ticks (w : World) (o : Vault) (n : nat) :
  Inv timed (mkSt w o) -> (ticks w <= n)%nat ->
  Inv timed (mkSt (set_ticks n w) o).
Proof.
  intros HI Hn. eapply Inv_evolves; eauto. repeat split. exact Hn.
Qed.

Lemma Inv_add_credential (s : St) n v m :
  call_wf (CAdd n v m) = true ->
  Inv timed s -> Inv timed (snd (add_credential n v m s)).
Proof.
  intros Hwf HI. destruct s as [w o]. unfold add_credential. mrun.
  apply Inv_save_if_auto.
  assert (HI2 : Inv timed (mkSt (set_ticks (S (S (ticks w))) w) o))
    by (apply Inv_ticks; auto).
  eapply Inv_credentials; [exact HI2|]. msimpl.
  apply creds_ok_set; [apply HI2|].
  unfold Credential_init, cred_ok. cbn [name value metadata].
  split; [reflexivity|]. split; [now rewrite !or_empty_idem|].
  split; [reflexivity|]. split.
  - apply json_wf_or_empty, json_wf_or_empty.
    destruct m; [exact Hwf | reflexivity].
  - intros Ht. cbn [created_at updated_at]. msimpl.
    destruct HI as (Hm & _). specialize (Hm Ht). msimpl.
    split; [apply Hm|]. apply monotone_le; auto.
Qed.

Lemma Inv_get_credential (s : St) n :
  Inv timed s -> Inv timed (snd (get_credential n s)).
Proof.
  intros HI. destruct s as [w o]. unfold get_credential. mrun.
  destruct (dict_get n (_credentials o)) as [c|] eqn:Eg; [|exact HI]. msimpl.
  destruct (log_access (settings (_config o))); [|exact HI]. msimpl.
  match goal with |- context [save_if_auto ?st] =>
    assert (HI2 : Inv timed st); [|apply Inv_save_if_auto in HI2;
      destruct (save_if_auto st) as [[[]|e] s']; exact HI2] end.
  assert (HI1 : Inv timed (mkSt (set_ticks (S (ticks w)) w) o))
    by (apply Inv_ticks; auto).
  eapply Inv_credentials; [exact HI1|]. msimpl.
  apply creds_ok_set; [apply HI1|].
  destruct HI1 as (_ & Hc & _). msimpl.
  exact (creds_ok_get _ _ _ _ Hc Eg).
Qed.

Lemma Inv_remove_credential (s : St) n :
  Inv timed s -> Inv timed (snd (remove_credential n s)).
Proof.
  intros HI. destruct s as [w o]. unfold remove_credential. mrun.
  destruct (dict_mem n (_credentials o)); [|exact HI]. msimpl.
  apply Inv_save_if_auto. eapply Inv_credentials; [exact HI|]. msimpl.
  apply creds_ok_del. apply HI.
Qed.

Lemma Inv_set_metadata (s : St) n m :
  call_wf (CSetMetadata n m) = true ->
  Inv timed s -> Inv timed (snd (set_metadata n m s)).
Proof.
  intros Hwf HI. destruct s as [w o]. unfold set_metadata. mrun.
  destruct (dict_get n (_credentials o)) as [c|] eqn:Eg; [|exact HI]. msimpl.
  apply Inv_save_if_auto.
  assert (HI1 : Inv timed (mkSt (set_ticks (S (ticks w)) w) o))
    by (apply Inv_ticks; auto).
  eapply Inv_credentials; [exact HI1|]. msimpl.
  apply creds_ok_set; [apply HI1|].
  destruct HI as (Hm & Hc & _). msimpl.
  destruct (creds_ok_get _ _ _ _ Hc Eg) as (Hn & _ & Hv & _ & Ht).
  unfold cred_ok. cbn [name value metadata].
  split; [exact Hn|]. split; [apply or_empty_obj|].
  split; [exact Hv|]. split; [exact Hwf|].
  intros Htimed. cbn [created_at updated_at]. msimpl.
  destruct (Ht Htimed) as [_ Hle]. split; [exact Hle|].
  eapply Z.le_trans; [exact Hle | apply (Hm Htimed)].
Qed.

Lemma Inv_save (s : St) : Inv timed s -> Inv timed (snd (save s)).
Proof.
  intros HI. unfold save, bind.
  apply Inv_save_vault in HI.
  destruct (_save_vault s) as [[[]|e] s1]; cbn [snd] in *; auto.
  now apply Inv_save_config.
Qed.

Lemma Inv_self (w : World) (o o' : Vault) :
  Inv timed (mkSt w o) -> _credentials o' = _credentials o ->
  Inv timed (mkSt w o').
Proof. intros HI Ho. eapply Inv_evolves; eauto. apply evolves_refl. Qed.

Lemma Inv_change_password (s : St) p :
  Inv timed s -> Inv timed (snd (change_password p s)).
Proof.
  intros HI. destruct s as [w o]. unfold change_password. mrun.
  match goal with |- context [_save_vault ?st] =>
    assert (HI1 : Inv timed st) end.
  { eapply Inv_evolves; eauto. repeat split. apply Nat.le_refl. }
  apply Inv_save_vault in HI1.
  destruct (_save_vault _) as [[[]|e] [w1 o1]]; msimpl.
  - apply Inv_save_config in HI1.
    destruct (_save_config _) as [[[]|e] [w2 o2]]; msimpl;
      first [exact HI1 | eapply Inv_self; eauto].
  - eapply Inv_self; eauto.
Qed.

Lemma cleanup_while_world (max_backups : Z) (backups : list string) (s : St) :
  exists files,
    cleanup_while max_backups backups s =
    (Ok tt, mkSt (set_backup_files files (world s)) (self s)).
Proof.
  revert s. induction backups as [|b r IH]; intros [w o]; cbn [cleanup_while].
  - exists (backup_files w). now destruct w.
  - destruct (Z.of_nat (List.length (b :: r)) >? max_backups).
    + mrun. destruct (IH (mkSt (set_backup_files (dict_del b (backup_files w)) w) o))
        as (files & ->). msimpl. now exists files.
    + exists (backup_files w). now destruct w.
Qed.

Lemma _cleanup_backups_world (s : St) :
  exists files,
    _cleanup_backups s =
    (Ok tt, mkSt (set_backup_files files (world s)) (self s)).
Proof.
  unfold _cleanup_backups. mrun.
  destruct (negb (auto_backup (settings (_config (self s))))).
  { exists (backup_files (world s)). now destruct s as [[] o]. }
  destruct (backup_count (settings (_config (self s))) <=? 0).
  { exists (backup_files (world s)). now destruct s as [[] o]. }
  apply cleanup_while_world.
Qed.

Lemma Inv_backup (s : St) : Inv timed s -> Inv timed (snd (backup s)).
Proof.
  intros HI. destruct s as [w o]. unfold backup. mrun.
  assert (HI1 : Inv timed (mkSt (set_ticks (S (ticks w)) w) o))
    by (apply Inv_ticks; auto).
  destruct (vault_file w) as [b|]; [|exact HI1]. msimpl.
  match goal with |- context [_cleanup_backups ?st] =>
    destruct (_cleanup_backups_world st) as (files & ->) end.
  msimpl. eapply Inv_evolves; [exact HI1| |reflexivity].
  repeat split. apply Nat.le_refl.
Qed.

Lemma Inv_init (s : St) force : Inv timed s -> Inv timed (snd (init force s)).
Proof.
  intros HI. destruct s as [w o]. unfold init, fresh_config. mrun.
  destruct ((match vault_file w with Some _ => true | None => false end) && negb force);
    [exact HI|]. msimpl.
  match goal with |- context [_save_config ?st] =>
    assert (HI1 : Inv timed st) end.
  { eapply Inv_credentials.
    - eapply Inv_evolves; [exact HI| |reflexivity]. repeat split. msimpl. auto.
    - msimpl. split; [constructor | intros k c []]. }
  apply Inv_save_config in HI1.
  destruct (_save_config _) as [[[]|e] s1]; msimpl; auto.
  apply Inv_save_vault in HI1.
  destruct (_save_vault s1) as [[[]|e] [w2 o2]]; msimpl; exact HI1.
Qed.

Lemma json_wf_obj (o : pydict json) :
  json_wf (JObj o) = true <->
  dict_wf o /\ forall k v, In (k, v) o -> json_wf v = true.
Proof.
  cbn [json_wf]. rewrite andb_true_iff, nodupb_NoDup, forallb_forall.
  unfold dict_wf, dict_keys. split; intros [H1 H2]; split; auto.
  - intros k v Hin. exact (H2 (k, v) Hin).
  - intros [k v] Hin. exact (H2 k v Hin).
Qed.

Lemma dict_update_ok (P : json -> Prop) (d items : pydict json) :
  dict_wf d -> (forall k v, In (k, v) d -> P v) ->
  (forall k v, In (k, v) items -> P v) ->
  dict_wf (dict_update d items) /\
  forall k v, In (k, v) (dict_update d items) -> P v.
Proof.
  unfold dict_update. revert d.
  induction items as [|[k0 v0] r IH]; intros d Hwf Hd Hi; cbn [fold_left fst snd].
  - auto.
  - apply IH.
    + now apply dict_wf_set.
    + intros k v Hin. apply dict_set_In in Hin; auto.
      destruct Hin as [[-> ->]|[_ Hin]]; [apply (Hi k0); now left | eauto].
    + intros k v Hin. apply (Hi k). now right.
Qed.

Lemma Inv_update_value (s : St) n v :
  Inv timed s -> Inv timed (snd (on_credential n (update_value v) s)).
Proof.
  intros HI. destruct s as [w o]. unfold on_credential, update_value. mrun.
  destruct (dict_get n (_credentials o)) as [c|] eqn:Eg; [|exact HI]. msimpl.
  assert (HI1 : Inv timed (mkSt (set_ticks (S (ticks w)) w) o))
    by (apply Inv_ticks; auto).
  eapply Inv_credentials; [exact HI1|]. msimpl.
  apply creds_ok_set; [apply HI1|].
  destruct HI as (Hm & Hc & _). msimpl.
  destruct (creds_ok_get _ _ _ _ Hc Eg) as (Hn & Ho & _ & Hmd & Ht).
  unfold cred_ok. cbn [name value metadata].
  repeat (split; [assumption || reflexivity|]).
  intros Htimed. cbn [created_at updated_at]. msimpl.
  destruct (Ht Htimed) as [_ Hle]. split; [exact Hle|].
  eapply Z.le_trans; [exact Hle | apply (Hm Htimed)].
Qed.

Lemma Inv_update_metadata (s : St) n patch :
  call_wf (CUpdateMetadata n patch) = true ->
  Inv timed s -> Inv timed (snd (on_credential n (update_metadata patch) s)).
Proof.
  intros Hwf HI. destruct s as [w o]. unfold on_credential, update_metadata. mrun.
  destruct (dict_get n (_credentials o)) as [c|] eqn:Eg; [|exact HI]. msimpl.
  destruct (metadata c) as [| | | | |m] eqn:Em; try exact HI. msimpl.
  assert (HI1 : Inv timed (mkSt (set_ticks (S (ticks w)) w) o))
    by (apply Inv_ticks; auto).
  eapply Inv_credentials; [exact HI1|]. msimpl.
  apply creds_ok_set; [apply HI1|].
  destruct HI as (Hm & Hc & _). msimpl.
  destruct (creds_ok_get _ _ _ _ Hc Eg) as (Hn & Ho & Hv & Hmd & Ht).
  unfold cred_ok. cbn [name value metadata].
  split; [exact Hn|]. split; [apply or_empty_obj|]. split; [exact Hv|]. split.
  - rewrite Em in Hmd. apply json_wf_obj in Hmd as [H1 H2].
    cbn [call_wf] in Hwf. apply json_wf_obj in Hwf as [H3 H4].
    apply json_wf_obj.
    apply (dict_update_ok (fun v => json_wf v = true)); auto.
  - intros Htimed. cbn [created_at updated_at]. msimpl.
    destruct (Ht Htimed) as [_ Hle]. split; [exact Hle|].
    eapply Z.le_trans; [exact Hle | apply (Hm Htimed)].
Qed.

Lemma Inv_run_call (s : St) (c : call) :
  call_wf c = true -> Inv timed s -> Inv timed (snd (run_call c s)).
Proof.
  intros Hwf HI. destruct c; cbn [run_call].
  - now apply Inv_init.
  - now apply Inv_add_credential.
  - apply Inv_get_credential with (n := n) in HI. unfold discard.
    now destruct (get_credential n s) as [[?|?] ?].
  - now apply Inv_remove_credential.
  - now apply Inv_set_metadata.
  - now apply Inv_save.
  - now apply Inv_change_password.
  - apply Inv_backup in HI. unfold discard.
    now destruct (backup s) as [[?|?] ?].
  - now apply Inv_update_value.
  - now apply Inv_update_metadata.
Qed.

(** Every state a client reaches from a directory whose store, if there
    is one, was written by the vault satisfies the invariant. *)
Lemma reachable_Inv_from (w0 : World) (s : St) :
  disk_ok (timely timed w0) w0 -> (timed = true -> monotone w0) ->
  reachable w0 s -> Inv timed s.
Proof.
  intros Hd Hm Hr. induction Hr as [pw auto o w E | s c Hr IH Hwf
    | s pw auto o w Hr IH E | s pw auto Hr IH | s vw cw env Hr IH].
  - destruct (__init___saved _ w0 pw auto Hd) as [Hev Hc].
    rewrite E in Hev, Hc. cbn [fst snd] in *.
    assert (HI0 : Inv timed (mkSt w0 o)).
    { split; [exact Hm|]. split; [now apply Hc | exact Hd]. }
    eapply Inv_evolves; eauto.
  - now apply Inv_run_call.
  - destruct s as [w1 o1]. msimpl.
    destruct (__init___saved _ w1 pw auto (proj2 (proj2 IH))) as [Hev Hc].
    rewrite E in Hev, Hc. cbn [fst snd] in *.
    assert (HI0 : Inv timed (mkSt w1 o)).
    { eapply Inv_credentials; [exact IH | now apply Hc]. }
    eapply Inv_evolves; eauto.
  - destruct s as [w1 o1]. msimpl.
    destruct (__init___saved _ w1 pw auto (proj2 (proj2 IH))) as [Hev _].
    eapply Inv_evolves; eauto.
  - destruct s as [w1 o1]. msimpl. exact IH.
Qed.

(** In particular from a directory without a store. *)
Lemma reachable_Inv (w0 : World) (s : St) :
  vault_file w0 = None -> (timed = true -> monotone w0) ->
  reachable w0 s -> Inv timed s.
Proof.
  intros Hv. apply reachable_Inv_from. unfold disk_ok. now rewrite Hv.
Qed.

End Preservation.

(** ** Names, timestamps and the frame of a call *)

Section Records.
Context {ext : Externals}.

(** C9. In every state that a client reaches from a directory without a
    store, by constructing the vault and calling its public methods
    (among them [add_credential], [set_metadata], [remove_credential],
    [save]) and by constructing it again, each key of [_credentials] is
    the [name] of the credential stored under it. *)
Theorem key_is_name (w0 : World) (s : St) (k : string) (c : Credential) :
  vault_file w0 = None ->
  reachable w0 s ->
  In (k, c) (_credentials (self s)) ->
  name c = JStr k.
Proof.
  intros Hv Hr Hin.
  assert (HI : Inv false s) by (apply (reachable_Inv false w0); auto; discriminate).
  destruct HI as (_ & [_ Hok] & _). apply (Hok k c Hin).
Qed.

(** C6, as the code has it. With a clock that never runs backwards, start
    from a directory that has no store, or a store the vault wrote whose
    records have [created_at <= updated_at] and a [created_at] that is not
    in the future. In every state a client then reaches
    ([add_credential], [set_metadata], [Credential.update_value] and
    [Credential.update_metadata] on a stored object, loading the store
    through [from_dict] when the vault is constructed, and the other
    public methods), every stored credential has
    [created_at <= updated_at]; and the record [to_dict] writes of it
    reads back through [from_dict] as the same credential, with the same
    two timestamps. Records without a valid timestamp are left out:
    [from_dict] gives each missing or unreadable one a clock reading of
    its own. *)
Theorem created_before_updated (w0 : World) (s : St) (k : string) (c : Credential) :
  disk_ok (timely true w0) w0 ->
  monotone w0 ->
  reachable w0 s ->
  In (k, c) (_credentials (self s)) ->
  created_at c <= updated_at c /\
  forall w, from_dict (to_dict c) w = (Ok c, w).
Proof.
  intros Hd Hm Hr Hin.
  assert (HI : Inv true s) by (apply (reachable_Inv_from true w0); auto).
  destruct HI as (_ & [_ Hok] & _).
  destruct (Hok k c Hin) as (_ & Hn & _ & _ & Ht). split.
  - now apply Ht.
  - intros w. now apply from_dict_to_dict_normal.
Qed.

Lemma _save_vault_self (s : St) : self (snd (_save_vault s)) = self s.
Proof.
  destruct (_save_vault_cases s) as (w' & _ & [[-> _] | (k & iv & -> & _)]);
    reflexivity.
Qed.

Lemma save_if_auto_self (s : St) : self (snd (save_if_auto s)) = self s.
Proof.
  unfold save_if_auto, bind, gets, ret.
  destruct (auto_save (self s)); [apply _save_vault_self | reflexivity].
Qed.

(** C10. [add_credential], [set_metadata] and [remove_credential] on the
    name [n] leave the record of every other name as it was, whether the
    call returns or raises. *)
Theorem other_names_unchanged (s : St) (n n' : string) :
  n' <> n ->
  (forall v m,
     dict_get n' (_credentials (self (snd (add_credential n v m s)))) =
     dict_get n' (_credentials (self s))) /\
  (forall m,
     dict_get n' (_credentials (self (snd (set_metadata n m s)))) =
     dict_get n' (_credentials (self s))) /\
  dict_get n' (_credentials (self (snd (remove_credential n s)))) =
  dict_get n' (_credentials (self s)).
Proof.
  intros Hne. destruct s as [w o]. split; [|split].
  - intros v m. unfold add_credential. mrun.
    rewrite save_if_auto_self. msimpl. now apply dict_get_set_other.
  - intros m. unfold set_metadata. mrun.
    destruct (dict_get n (_credentials o)); [|reflexivity]. msimpl.
    rewrite save_if_auto_self. msimpl. now apply dict_get_set_other.
  - unfold remove_credential. mrun.
    destruct (dict_mem n (_credentials o)); [|reflexivity]. msimpl.
    rewrite save_if_auto_self. msimpl. now apply dict_get_del_other.
Qed.

End Records.

(** A session is a reachable state. *)
Lemma demo_one_reachable : reachable Demo.w0 Demo.one.
Proof.
  unfold Demo.one, Demo.fresh, Demo.after.
  apply reach_call; [|reflexivity]. apply reach_call; [|reflexivity].
  apply (reach_open Demo.w0 (Some "hunter2") true). reflexivity.
Defined.

Lemma key_is_name_witness :
  In ("k", mkCredential (JStr "k") (JStr "v1") 2000000 3000000 None
             (JObj [("env", JStr "prod")]))
     (_credentials (self Demo.one)) /\
  name (mkCredential (JStr "k") (JStr "v1") 2000000 3000000 None
          (JObj [("env", JStr "prod")])) = JStr "k".
Proof.
  assert (Hin : In ("k", mkCredential (JStr "k") (JStr "v1") 2000000 3000000 None
                           (JObj [("env", JStr "prod")]))
                   (_credentials (self Demo.one))) by (vm_compute; now left).
  split; [exact Hin|].
  apply (key_is_name Demo.w0 Demo.one "k" _ eq_refl demo_one_reachable Hin).
Defined.

Lemma demo_clock_monotone : monotone Demo.w0.
Proof. intros i. cbn [Demo.w0 clock]. lia. Defined.

(** The directory of [Demo.one], with its store, as a starting point. *)
Lemma demo_one_disk_ok : disk_ok (timely true (world Demo.one)) (world Demo.one).
Proof.
  exact (proj2 (proj2 (reachable_Inv true Demo.w0 Demo.one eq_refl
                         (fun _ => demo_clock_monotone) demo_one_reachable))).
Defined.

Lemma demo_one_monotone : monotone (world Demo.one).
Proof.
  assert (H : clock (world Demo.one) = clock Demo.w0) by (vm_compute; reflexivity).
  intros i. rewrite H. apply demo_clock_monotone.
Defined.

Lemma demo_reopened_reachable :
  reachable (world Demo.one) (Demo.construct "hunter2" (world Demo.one)).
Proof.
  assert (Hok : exists o, fst (__init__ (Some "hunter2") true (world Demo.one)) = Ok o)
    by (eexists; vm_compute; reflexivity).
  unfold Demo.construct.
  destruct (__init__ (Some "hunter2") true (world Demo.one)) as [[o|e] w'] eqn:E.
  - eapply reach_open. exact E.
  - exfalso. destruct Hok as [o Ho]. cbn [fst] in Ho. discriminate.
Defined.

Lemma created_before_updated_witness :
  disk_ok (timely true (world Demo.one)) (world Demo.one) /\
  monotone (world Demo.one) /\
  reachable (world Demo.one) (Demo.construct "hunter2" (world Demo.one)) /\
  In ("k", mkCredential (JStr "k") (JStr "v1") 2000000 3000000 None
             (JObj [("env", JStr "prod")]))
     (_credentials (self (Demo.construct "hunter2" (world Demo.one)))) /\
  2000000 <= 3000000.
Proof.
  assert (Hin : In ("k", mkCredential (JStr "k") (JStr "v1") 2000000 3000000 None
                           (JObj [("env", JStr "prod")]))
                   (_credentials (self (Demo.construct "hunter2" (world Demo.one)))))
    by (vm_compute; now left).
  split; [exact demo_one_disk_ok|]. split; [exact demo_one_monotone|].
  split; [exact demo_reopened_reachable|]. split; [exact Hin|].
  apply (proj1 (created_before_updated (world Demo.one)
                  (Demo.construct "hunter2" (world Demo.one)) "k" _
                  demo_one_disk_ok demo_one_monotone demo_reopened_reachable Hin)).
Defined.

(** A record on disk that carries an [updated_at] and no [created_at]:
    loading gives it the time of loading as [created_at], later than its
    [updated_at]. *)
Lemma loaded_record_created_after_updated :
  fst (__init__ (Some "hunter2") true Demo.edited) =
    Ok (mkVault true (Some "hunter2")
          [("k", mkCredential (JStr "k") (JStr "v1") 4000000 1000000 None (JObj []))]
          (_config (self Demo.one))) /\
  ~ (4000000 <= 1000000).
Proof.
  split; [vm_compute; reflexivity | lia].
Qed.

Lemma other_names_unchanged_witness :
  "db url" <> "api-key" /\
  dict_get "db url"
    (_credentials (self (snd (remove_credential "api-key" Demo.two)))) =
  dict_get "db url" (_credentials (self Demo.two)).
Proof.
  assert (Hne : "db url" <> "api-key") by discriminate.
  split; [exact Hne|].
  apply (other_names_unchanged Demo.two "api-key" "db url" Hne).
Defined.

(** ** Adding under an existing name *)

Section Adding.
Context {ext : Externals}.

(** C1, as the code has it. [add_credential] does not look whether the
    name exists: in every vault it stores under [n] a new record with the
    given value and metadata, both timestamps read from the clock and no
    access time, replacing the record that was there; the only exception
    it raises is the [EncryptionError] of a failed auto-save. *)
Theorem add_credential_replaces (s : St) (n v : string) (m : option (pydict json)) :
  dict_get n (_credentials (self (snd (add_credential n v m s)))) =
    Some (mkCredential (JStr n) (JStr v)
            (clock (world s) (ticks (world s)))
            (clock (world s) (S (ticks (world s))))
            None
            (JObj (match m with Some d => d | None => [] end))) /\
  (fst (add_credential n v m s) = Ok tt \/
   (auto_save (self s) = true /\
    fst (add_credential n v m s) = Raise EncryptionError)).
Proof.
  destruct s as [w o]. unfold add_credential. mrun. split.
  - rewrite save_if_auto_self. msimpl. rewrite dict_get_set_same.
    unfold Credential_init. rewrite or_empty_idem.
    destruct m as [d|]; [now rewrite or_empty_obj | reflexivity].
  - unfold save_if_auto. mrun. destruct (auto_save o); [|now left].
    match goal with |- context [_save_vault ?st] =>
      destruct (_save_vault_cases st) as (w' & _ & [[-> _] | (k & iv & -> & _)]) end;
      cbn [fst]; auto.
Qed.

End Adding.

(** C1 fails on the code: in a vault that holds ["k"], adding ["k"] again
    returns normally and the record under ["k"] is no longer the one that
    was there. *)
Lemma add_existing_name_overwrites :
  dict_mem "k" (_credentials (self Demo.one)) = true /\
  fst (add_credential "k" "v2" None Demo.one) = Ok tt /\
  dict_get "k" (_credentials (self (snd (add_credential "k" "v2" None Demo.one)))) <>
  dict_get "k" (_credentials (self Demo.one)).
Proof.
  split; [reflexivity|]. split; [reflexivity|].
  vm_compute. discriminate.
Qed.

(** ** Exporting to environment variables *)








(** ** Records with missing or corrupt timestamps *)

Section Lenient.
Context {ext : Externals}.

Lemma reading_tick (w : World) :
  reading w (set_ticks (S (ticks w)) w) (clock w (ticks w)).
Proof. exists (ticks w). msimpl. split; [lia | reflexivity]. Qed.

Lemma reading_widen (w0 w w' w1 : World) (t : datetime) :
  later w0 w -> later w' w1 -> reading w w' t -> reading w0 w1 t.
Proof.
  intros (a & Ha & ->) (b & Hb & ->) (i & Hi & ->). msimpl.
  exists i. msimpl. split; [lia | reflexivity].
Qed.

Lemma parse_datetime_spec (j : json) (w : World) :
  exists x w', parse_datetime j w = (Ok x, w') /\ later w w' /\
    (truthy j = false -> x = None) /\
    (truthy j = true ->
     match stamp j with
     | Some t => x = Some t
     | None => exists t, x = Some t /\ reading w w' t
     end).
Proof.
  unfold parse_datetime, stamp. destruct (truthy j) eqn:Et; cbn [negb].
  2:{ exists None, w. repeat split; auto using later_refl. discriminate. }
  assert (Hnow : exists x w', (t <- now ;; ret (Some t)) w = (Ok x, w') /\
                   later w w' /\ (true = false -> x = None) /\
                   (true = true -> exists t, x = Some t /\ reading w w' t)).
  { do 2 eexists. split; [reflexivity|]. split; [apply later_tick|].
    split; [discriminate|]. intros _. eexists. split; [reflexivity|].
    apply reading_tick. }
  destruct j; try exact Hnow.
  destruct (fromisoformat s) as [t|]; [|exact Hnow].
  exists (Some t), w. repeat split; auto using later_refl. discriminate.
Qed.

Lemma or_now_spec (x : option datetime) (w : World) :
  exists t w', or_now x w = (Ok t, w') /\ later w w' /\
    match x with
    | Some t0 => t = t0
    | None => reading w w' t
    end.
Proof.
  destruct x as [t0|].
  - exists t0, w. repeat split. apply later_refl.
  - do 2 eexists. split; [reflexivity|]. split; [apply later_tick | apply reading_tick].
Qed.

(** What [from_dict] makes of a record that has a name and a value. *)
Lemma from_dict_spec (o : pydict json) (w : World) (n v : json) :
  dict_get "name" o = Some n ->
  dict_get "value" o = Some v ->
  exists c w',
    from_dict (JObj o) w = (Ok c, w') /\
    later w w' /\
    name c = n /\ value c = v /\
    match stamp (json_get "created_at" o) with
    | Some t => created_at c = t
    | None => reading w w' (created_at c)
    end /\
    match stamp (json_get "updated_at" o) with
    | Some t => updated_at c = t
    | None => reading w w' (updated_at c)
    end /\
    (if truthy (json_get "last_accessed" o) then
       match stamp (json_get "last_accessed" o) with
       | Some t => last_accessed c = Some t
       | None => exists t, last_accessed c = Some t /\ reading w w' t
       end
     else last_accessed c = None).
Proof.
  intros Hn Hv. unfold from_dict, json_index. rewrite Hn, Hv. unfold bind.
  destruct (parse_datetime_spec (json_get "created_at" o) w)
    as (c & w1 & -> & L1 & Hc0 & Hc1).
  destruct (parse_datetime_spec (json_get "updated_at" o) w1)
    as (u & w2 & -> & L2 & Hu0 & Hu1).
  destruct (parse_datetime_spec (json_get "last_accessed" o) w2)
    as (la & w3 & -> & L3 & Hl0 & Hl1).
  unfold ret at 1 2.
  destruct (or_now_spec c w3) as (c' & w4 & -> & L4 & Hc').
  destruct (or_now_spec u w4) as (u' & w5 & -> & L5 & Hu').
  unfold ret. do 2 eexists. split; [reflexivity|].
  assert (L12 : later w w2) by eauto using later_trans.
  assert (L13 : later w w3) by eauto using later_trans.
  assert (L14 : later w w4) by eauto using later_trans.
  assert (L15 : later w w5) by eauto using later_trans.
  assert (L35 : later w3 w5) by eauto using later_trans.
  assert (L25 : later w2 w5) by eauto using later_trans.
  assert (L15' : later w1 w5) by eauto using later_trans.
  split; [exact L15|]. unfold Credential_init.
  cbn [name value created_at updated_at last_accessed].
  split; [reflexivity|]. split; [reflexivity|]. split; [|split].
  - unfold stamp in *. destruct (truthy (json_get "created_at" o)).
    + specialize (Hc1 eq_refl).
      destruct (match json_get "created_at" o with JStr s => fromisoformat s | _ => None end).
      * subst c. exact Hc'.
      * destruct Hc1 as (t & -> & Hr). subst c'.
        apply (reading_widen w w w1 w5); auto using later_refl.
    + rewrite (Hc0 eq_refl) in Hc'.
      apply (reading_widen w w3 w4 w5); auto.
  - unfold stamp in *. destruct (truthy (json_get "updated_at" o)).
    + specialize (Hu1 eq_refl).
      destruct (match json_get "updated_at" o with JStr s => fromisoformat s | _ => None end).
      * subst u. exact Hu'.
      * destruct Hu1 as (t & -> & Hr). subst u'.
        apply (reading_widen w w1 w2 w5); auto.
    + rewrite (Hu0 eq_refl) in Hu'.
      apply (reading_widen w w4 w5 w5); auto using later_refl.
  - destruct (truthy (json_get "last_accessed" o)); [|now apply Hl0].
    specialize (Hl1 eq_refl).
    destruct (stamp (json_get "last_accessed" o)); [exact Hl1|].
    destruct Hl1 as (t & -> & Hr). exists t. split; [reflexivity|].
    apply (reading_widen w w2 w3 w5); auto.
Qed.

End Lenient.

Section Loading.
Context {ext : Externals}.

Lemma load_items_total (items : pydict json) (acc : pydict Credential) (w : World) :
  forallb (fun kv => has_name_value (snd kv)) items = true ->
  exists d w', load_items items acc w = (Ok d, w') /\ later w w'.
Proof.
  revert acc w. induction items as [|[k j] r IH]; intros acc w H; cbn [load_items].
  - exists acc, w. split; [reflexivity | apply later_refl].
  - cbn [forallb snd] in H. apply andb_true_iff in H as [Hj Hr].
    destruct j as [| | | | |o]; try discriminate.
    cbn [has_name_value] in Hj. apply andb_true_iff in Hj as [Hn Hv].
    unfold dict_mem in Hn, Hv.
    destruct (dict_get "name" o) as [n|] eqn:En; [|discriminate].
    destruct (dict_get "value" o) as [v|] eqn:Ev; [|discriminate].
    destruct (from_dict_spec o w n v En Ev) as (c & w1 & E & L & _).
    unfold bind. rewrite E.
    destruct (IH (dict_set k c acc) w1 Hr) as (d & w2 & E2 & L2).
    exists d, w2. split; [exact E2 | eauto using later_trans].
Qed.

(** Constructing the vault when the store decrypts under the key of the
    password and parses to an object whose records load. *)
Lemma __init___loads (w w' : World) pw auto cfg b p x items d :
  vault_file w = Some b ->
  config_file w = Some (Parsed cfg) ->
  salt cfg <> [] ->
  password_or_environ pw (environ_password w) = Some p ->
  p <> "" ->
  fernet_decrypt (pbkdf2 p (salt cfg)) b = Some x ->
  json_loads x = Some (JObj items) ->
  load_items items [] w = (Ok d, w') ->
  __init__ pw auto w = (Ok (mkVault auto (Some p) d cfg), w').
Proof.
  intros Hv Hc Hs Hp Hp' Hd Hj Hl. unfold __init__. mrun.
  rewrite Hp, Hv.
  assert (Hno : no_password (Some p) = false) by (destruct p; [congruence | reflexivity]).
  rewrite Hno. cbn [andb].
  destruct (_load_config_ok w) as (cfg' & w1 & -> & _ & _ & Hcfg).
  destruct (Hcfg cfg Hc) as [-> ->]. msimpl.
  unfold _load_vault. mrun. rewrite Hv. msimpl.
  destruct (_derive_key_cases (Some p) (salt cfg) w) as (w2 & _ & _ & sl' & -> & Hsl).
  destruct (Hsl Hs) as [-> ->]. msimpl.
  rewrite Hd, Hj. msimpl. rewrite Hl. reflexivity.
Qed.

(** C7, as the code has it. A record that has a name and a value loads
    whatever its timestamp fields hold, and so does a store made of such
    records: a [created_at] or [updated_at] that is missing, empty or not
    an ISO string becomes the current time, a [last_accessed] that is
    present and not an ISO string too, and a [last_accessed] that is
    missing, null or empty stays [None]. Nothing is logged. *)
Theorem timestamps_default_silently (o : pydict json) (w : World) (n v : json) :
  dict_get "name" o = Some n ->
  dict_get "value" o = Some v ->
  (exists c w',
     from_dict (JObj o) w = (Ok c, w') /\
     log w' = log w /\
     name c = n /\ value c = v /\
     match stamp (json_get "created_at" o) with
     | Some t => created_at c = t
     | None => reading w w' (created_at c)
     end /\
     match stamp (json_get "updated_at" o) with
     | Some t => updated_at c = t
     | None => reading w w' (updated_at c)
     end /\
     (if truthy (json_get "last_accessed" o) then
        match stamp (json_get "last_accessed" o) with
        | Some t => last_accessed c = Some t
        | None => exists t, last_accessed c = Some t /\ reading w w' t
        end
      else last_accessed c = None)) /\
  (forall items acc,
     forallb (fun kv => has_name_value (snd kv)) items = true ->
     exists d w', load_items items acc w = (Ok d, w') /\ log w' = log w) /\
  (forall pw auto cfg b p x items,
     vault_file w = Some b ->
     config_file w = Some (Parsed cfg) ->
     salt cfg <> [] ->
     password_or_environ pw (environ_password w) = Some p ->
     p <> "" ->
     fernet_decrypt (pbkdf2 p (salt cfg)) b = Some x ->
     json_loads x = Some (JObj items) ->
     forallb (fun kv => has_name_value (snd kv)) items = true ->
     exists obj w',
       __init__ pw auto w = (Ok obj, w') /\ log w' = log w).
Proof.
  intros Hn Hv. split; [|split].
  - destruct (from_dict_spec o w n v Hn Hv) as (c & w' & E & L & H).
    exists c, w'. split; [exact E|]. split; [now apply later_log | exact H].
  - intros items acc H.
    destruct (load_items_total items acc w H) as (d & w' & E & L).
    exists d, w'. split; [exact E | now apply later_log].
  - intros pw auto cfg b p x items Hvf Hc Hs Hp Hp' Hd Hj H.
    destruct (load_items_total items [] w H) as (d & w' & E & L).
    exists (mkVault auto (Some p) d cfg), w'. split; [|now apply later_log].
    eapply __init___loads; eauto.
Qed.

End Loading.

(** C7 fails on the code in two places: with a corrupt [created_at] and no
    other timestamp, the record loads with [last_accessed = None], not the
    current time, and [updated_at] and [created_at] are set from the clock
    without a record in the log. *)
Lemma missing_last_accessed_stays_none :
  from_dict
    (JObj [("name", JStr "k"); ("value", JStr "v");
           ("created_at", JStr "yesterday")]) Demo.w0 =
  (Ok (mkCredential (JStr "k") (JStr "v") 0 1000000 None (JObj [])),
   set_ticks 2 Demo.w0) /\
  log (set_ticks 2 Demo.w0) = [].
Proof. split; reflexivity. Qed.

Lemma timestamps_default_silently_witness :
  dict_get "name" [("name", JStr "k"); ("value", JStr "v");
                   ("created_at", JStr "yesterday")] = Some (JStr "k") /\
  dict_get "value" [("name", JStr "k"); ("value", JStr "v");
                    ("created_at", JStr "yesterday")] = Some (JStr "v") /\
  exists c w',
    from_dict (JObj [("name", JStr "k"); ("value", JStr "v");
                     ("created_at", JStr "yesterday")]) Demo.w0 = (Ok c, w') /\
    log w' = log Demo.w0.
Proof.
  split; [reflexivity|]. split; [reflexivity|].
  destruct (timestamps_default_silently
              [("name", JStr "k"); ("value", JStr "v");
               ("created_at", JStr "yesterday")]
              Demo.w0 (JStr "k") (JStr "v") eq_refl eq_refl)
    as [(c & w' & E & L & _) _].
  exists c, w'. split; [exact E | exact L].
Defined.

(** ** Opening with a wrong password *)

Section WrongPassword.
Context {ext : Externals}.

Lemma no_password_false (p : option string) :
  no_password p = false -> exists q, p = Some q /\ q <> "".
Proof.
  destruct p as [[|a q]|]; try discriminate. intros _.
  eexists. split; [reflexivity | discriminate].
Qed.

(** A store under another key than the one the password derives. *)
Lemma __init___wrong_key (w : World) pw auto cfg k iv x :
  vault_file w = Some (fernet_encrypt k iv x) ->
  config_file w = Some (Parsed cfg) ->
  salt cfg <> [] ->
  (forall p, password_or_environ pw (environ_password w) = Some p ->
             k <> pbkdf2 p (salt cfg)) ->
  fst (__init__ pw auto w) = Raise AuthenticationError.
Proof.
  intros Hv Hc Hs Hk. unfold __init__. mrun. rewrite Hv.
  destruct (no_password (password_or_environ pw (environ_password w))) eqn:Eno;
    cbn [andb]; [reflexivity|].
  apply no_password_false in Eno as (p & Ep & Hp).
  destruct (_load_config_ok w) as (cfg' & w1 & -> & _ & _ & Hcfg).
  destruct (Hcfg cfg Hc) as [-> ->]. msimpl.
  unfold _load_vault. mrun. rewrite Hv. msimpl. rewrite Ep.
  destruct (_derive_key_cases (Some p) (salt cfg) w) as (w2 & _ & _ & sl' & -> & Hsl).
  destruct (Hsl Hs) as [-> ->]. msimpl.
  rewrite (fernet_authentic _ _ (Hk p Ep)). reflexivity.
Qed.

(** What a successful [_save_vault] has written. *)
Lemma _save_vault_written (s : St) (p : string) :
  _password (self s) = Some p ->
  salt (_config (self s)) <> [] ->
  fst (_save_vault s) = Ok tt ->
  exists iv w',
    frame (world s) w' /\
    _save_vault s = (Ok tt, mkSt w' (self s)) /\
    vault_file w' =
      Some (fernet_encrypt (pbkdf2 p (salt (_config (self s)))) iv
              (json_dumps (credentials_data (_credentials (self s))))).
Proof.
  intros Hp Hs Hok. destruct (vault_writable (world s)) eqn:Ew.
  - now apply _save_vault_ok.
  - exfalso. revert Hok. destruct s as [w o]. msimpl.
    unfold _save_vault, _derive_key. mrun. rewrite Hp.
    destruct (salt (_config o)); [congruence|]. msimpl. rewrite Ew. discriminate.
Qed.

(** What a successful [save] has written. *)
Lemma save_written (s : St) (p : string) :
  _password (self s) = Some p ->
  salt (_config (self s)) <> [] ->
  fst (save s) = Ok tt ->
  exists iv,
    vault_file (world (snd (save s))) =
      Some (fernet_encrypt (pbkdf2 p (salt (_config (self s)))) iv
              (json_dumps (credentials_data (_credentials (self s))))) /\
    config_file (world (snd (save s))) = Some (Parsed (_config (self s))) /\
    vault_writable (world (snd (save s))) = vault_writable (world s) /\
    self (snd (save s)) = self s.
Proof.
  intros Hp Hs Hok. unfold save, bind in *.
  destruct (_save_vault s) as [[[]|e] s1] eqn:E; [|discriminate].
  assert (Hok1 : fst (_save_vault s) = Ok tt) by now rewrite E.
  destruct (_save_vault_written s p Hp Hs Hok1) as (iv & w' & Hf & E' & Hv).
  rewrite E in E'. injection E' as ->.
  destruct (_save_config_cases (mkSt w' (self s))) as [[Ec _]|[Ec _]];
    rewrite Ec in *; [discriminate|]. msimpl.
  exists iv. split; [exact Hv|]. split; [reflexivity|]. split; [apply Hf | reflexivity].
Qed.

(** C4, as the code has it. The vault authenticates the key derived from
    the password, not the password. A store and its configuration written
    by [save] under the password [pw0] cannot be opened with a password
    that derives another key under the stored salt: whatever the caller
    passes and the environment holds, when the password the constructor
    settles on is missing or derives a key other than that of [pw0],
    [Vault(...)] raises [AuthenticationError], and so returns no object
    at all. *)
Theorem wrong_password_is_rejected (s : St) (pw0 : string) (w : World)
    (password : option string) (auto : bool) :
  _password (self s) = Some pw0 ->
  salt (_config (self s)) <> [] ->
  fst (save s) = Ok tt ->
  vault_file w = vault_file (world (snd (save s))) ->
  config_file w = config_file (world (snd (save s))) ->
  (forall p,
     password_or_environ password (environ_password w) = Some p ->
     pbkdf2 p (salt (_config (self s))) <> pbkdf2 pw0 (salt (_config (self s)))) ->
  fst (__init__ password auto w) = Raise AuthenticationError.
Proof.
  intros Hp Hs Hok Hv Hc Hne.
  destruct (save_written s pw0 Hp Hs Hok) as (iv & Hv' & Hc' & _).
  rewrite Hv' in Hv. rewrite Hc' in Hc.
  apply (__init___wrong_key w password auto _ _ _ _ Hv Hc Hs).
  intros p Ep Hk. apply (Hne p Ep). now symmetry.
Qed.

End WrongPassword.

Lemma wrong_password_is_rejected_witness :
  _password (self Demo.one) = Some "hunter2" /\
  salt (_config (self Demo.one)) <> [] /\
  fst (save Demo.one) = Ok tt /\
  (forall p,
     password_or_environ (Some "letmein")
       (environ_password (world (snd (save Demo.one)))) = Some p ->
     pbkdf2 p (salt (_config (self Demo.one))) <>
     pbkdf2 "hunter2" (salt (_config (self Demo.one)))) /\
  fst (__init__ (Some "letmein") true (world (snd (save Demo.one)))) =
  Raise AuthenticationError.
Proof.
  assert (Hs : salt (_config (self Demo.one)) <> []) by (vm_compute; discriminate).
  assert (Hne : forall p,
            password_or_environ (Some "letmein")
              (environ_password (world (snd (save Demo.one)))) = Some p ->
            pbkdf2 p (salt (_config (self Demo.one))) <>
            pbkdf2 "hunter2" (salt (_config (self Demo.one)))).
  { intros p Ep. unfold password_or_environ in Ep. injection Ep as <-.
    vm_compute. discriminate. }
  split; [reflexivity|]. split; [exact Hs|]. split; [reflexivity|].
  split; [exact Hne|].
  apply (wrong_password_is_rejected Demo.one "hunter2"
           (world (snd (save Demo.one))) (Some "letmein") true
           eq_refl Hs eq_refl eq_refl eq_refl Hne).
Defined.

(** The password followed by a NUL byte is another password, and it
    opens the vault: both derive the same key. *)
Lemma nul_suffixed_password_opens :
  ("hunter2" ++ String "000" "")%string <> "hunter2" /\
  _password (self Demo.one) = Some "hunter2" /\
  fst (save Demo.one) = Ok tt /\
  fst (__init__ (Some ("hunter2" ++ String "000" "")%string) true
         (world (snd (save Demo.one)))) =
    Ok (mkVault true (Some ("hunter2" ++ String "000" "")%string)
          (_credentials (self Demo.one)) (_config (self Demo.one))) /\
  fst (__init__ (Some ("hunter2" ++ String "000" "")%string) true
         (world (snd (save Demo.one)))) <> Raise AuthenticationError.
Proof.
  assert (H : fst (__init__ (Some ("hunter2" ++ String "000" "")%string) true
                     (world (snd (save Demo.one)))) =
              Ok (mkVault true (Some ("hunter2" ++ String "000" "")%string)
                    (_credentials (self Demo.one)) (_config (self Demo.one))))
    by (vm_compute; reflexivity).
  split; [discriminate|]. split; [reflexivity|]. split; [reflexivity|].
  split; [exact H|]. rewrite H. discriminate.
Qed.

(** ** Round trip *)

Section RoundTrip.
Context {ext : Externals}.

Lemma password_or_environ_some (p : string) (env : option string) :
  p <> "" -> password_or_environ (Some p) env = Some p.
Proof. destruct p; [congruence | reflexivity]. Qed.

(** What [save_if_auto] does when the store can be written. *)
Lemma save_if_auto_ok (s : St) (p : string) :
  _password (self s) = Some p ->
  salt (_config (self s)) <> [] ->
  vault_writable (world s) = true ->
  exists w',
    save_if_auto s = (Ok tt, mkSt w' (self s)) /\ frame (world s) w' /\
    (auto_save (self s) = true ->
     exists iv,
       vault_file w' =
         Some (fernet_encrypt (pbkdf2 p (salt (_config (self s)))) iv
                 (json_dumps (credentials_data (_credentials (self s)))))).
Proof.
  intros Hp Hs Hw. unfold save_if_auto, bind, gets, ret.
  destruct (auto_save (self s)) eqn:Ea.
  - destruct (_save_vault_ok s Hp Hs Hw) as (iv & w' & Hf & E & Hv).
    exists w'. split; [exact E|]. split; [exact Hf|]. intros _. now exists iv.
  - exists (world s). split; [now destruct s|]. split; [apply frame_refl | discriminate].
Qed.

Lemma get_credential_ok (s : St) (n p : string) (c : Credential) :
  dict_get n (_credentials (self s)) = Some c ->
  _password (self s) = Some p ->
  salt (_config (self s)) <> [] ->
  vault_writable (world s) = true ->
  fst (get_credential n s) = Ok (value c).
Proof.
  destruct s as [w o]. msimpl. intros Hg Hp Hs Hw.
  unfold get_credential. mrun. rewrite Hg. msimpl.
  destruct (log_access (settings (_config o))); [|reflexivity]. msimpl.
  match goal with |- context [save_if_auto ?st] =>
    destruct (save_if_auto_ok st p Hp Hs Hw) as (w' & -> & _) end.
  reflexivity.
Qed.

Lemma get_metadata_ok (s : St) (n : string) (c : Credential) :
  dict_get n (_credentials (self s)) = Some c ->
  fst (get_metadata n s) = Ok (metadata c).
Proof.
  destruct s as [w o]. msimpl. intros Hg.
  unfold get_metadata. mrun. now rewrite Hg.
Qed.

(** Opening a store written from the credentials [d] under [p]. *)
Lemma __init___reopens (T : Credential -> Prop) (w : World) p auto cfg iv d :
  vault_file w =
    Some (fernet_encrypt (pbkdf2 p (salt cfg)) iv (json_dumps (credentials_data d))) ->
  config_file w = Some (Parsed cfg) ->
  salt cfg <> [] ->
  p <> "" ->
  creds_ok T d ->
  __init__ (Some p) auto w = (Ok (mkVault auto (Some p) d cfg), w).
Proof.
  intros Hv Hc Hs Hp Hd.
  apply (__init___loads w w (Some p) auto cfg _ p (json_dumps (credentials_data d))
           (map (fun kv => (fst kv, to_dict (snd kv))) d) d Hv Hc Hs).
  - now apply password_or_environ_some.
  - exact Hp.
  - apply fernet_roundtrip.
  - apply (json_roundtrip _ (json_wf_credentials_data Hd)).
  - rewrite load_items_saved by (intros k c Hin; apply Hd in Hin; apply Hin).
    destruct Hd as [Hwf _]. now rewrite dict_update_fresh.
Qed.

Lemma add_credential_unfold (s : St) n v m :
  add_credential n v m s =
  save_if_auto
    (mkSt (set_ticks (S (S (ticks (world s)))) (world s))
       (with_credentials (dict_set n (added (world s) n v m) (_credentials (self s)))
          (self s))).
Proof.
  destruct s as [w o]. unfold add_credential, added, Credential_init. mrun.
  rewrite or_empty_idem.
  destruct m as [d|]; [now rewrite or_empty_obj | reflexivity].
Qed.

Lemma add_credential_ok (s : St) (pw n v : string) (m : option (pydict json)) :
  persistent pw s ->
  exists w1,
    add_credential n v m s =
      (Ok tt, mkSt w1 (with_credentials
                         (dict_set n (added (world s) n v m) (_credentials (self s)))
                         (self s))) /\
    persistent pw (snd (add_credential n v m s)) /\
    (auto_save (self s) = true ->
     exists iv,
       vault_file w1 =
         Some (fernet_encrypt (pbkdf2 pw (salt (_config (self s)))) iv
                 (json_dumps (credentials_data
                    (dict_set n (added (world s) n v m) (_credentials (self s))))))).
Proof.
  intros (Hp & Hne & Hs & Hc & Hw & Hcw). rewrite add_credential_unfold.
  destruct s as [w o]. msimpl.
  match goal with |- context [save_if_auto ?st] =>
    destruct (save_if_auto_ok st pw Hp Hs Hw) as (w1 & -> & Hf & Hv) end.
  msimpl. exists w1. split; [reflexivity|]. split; [|exact Hv].
  destruct Hf as (Hf1 & _ & Hf3 & Hf4 & _). msimpl.
  unfold persistent. msimpl. rewrite Hf1, Hf3, Hf4. repeat split; auto.
Qed.

Lemma close_ok (s : St) (pw : string) :
  persistent pw s ->
  (auto_save (self s) = true ->
   exists iv,
     vault_file (world s) =
       Some (fernet_encrypt (pbkdf2 pw (salt (_config (self s)))) iv
               (json_dumps (credentials_data (_credentials (self s)))))) ->
  exists iv w',
    close s = (Ok tt, mkSt w' (self s)) /\
    vault_file w' =
      Some (fernet_encrypt (pbkdf2 pw (salt (_config (self s)))) iv
              (json_dumps (credentials_data (_credentials (self s))))) /\
    config_file w' = Some (Parsed (_config (self s))) /\
    vault_writable w' = true.
Proof.
  intros (Hp & Hne & Hs & Hc & Hw & Hcw) Hv. unfold close.
  destruct (auto_save (self s)) eqn:Ea.
  - destruct (Hv eq_refl) as (iv & Hv'). exists iv, (world s).
    split; [now destruct s | auto].
  - unfold save, bind.
    destruct (_save_vault_ok s Hp Hs Hw) as (iv & w1 & Hf & -> & Hv1).
    destruct Hf as (_ & _ & Hf3 & Hf4 & _).
    destruct (_save_config_cases (mkSt w1 (self s))) as [[_ Hno]|[-> _]].
    + msimpl. rewrite Hf4, (Hcw eq_refl) in Hno. discriminate.
    + msimpl. exists iv, (set_config_file (Some (Parsed (_config (self s)))) w1).
      msimpl. rewrite Hf3. auto.
Qed.

(** X26. In a vault that a client has reached from a directory without a
    store and that can persist itself under the password [pw] (among
    other things its configuration, with the salt, is the one in
    [config.json], as after [init()] or [save()]), after
    [add_credential(n, v, m)]: the call returned, [get_credential(n)]
    returns [v] and the stored metadata is [m] ([{}] when none was
    given); and after closing the vault and constructing it again with
    [pw], [get_credential(n)] returns [v] and the metadata is [m]
    again. *)
Theorem credential_round_trip (w0 : World) (s : St) (pw n v : string)
    (m : option (pydict json)) :
  vault_file w0 = None ->
  reachable w0 s ->
  persistent pw s ->
  call_wf (CAdd n v m) = true ->
  fst (add_credential n v m s) = Ok tt /\
  fst (get_credential n (snd (add_credential n v m s))) = Ok (JStr v) /\
  fst (get_metadata n (snd (add_credential n v m s))) =
    Ok (JObj (match m with Some d => d | None => [] end)) /\
  fst (close (snd (add_credential n v m s))) = Ok tt /\
  forall auto,
    exists o w,
      __init__ (Some pw) auto (world (snd (close (snd (add_credential n v m s))))) =
        (Ok o, w) /\
      fst (get_credential n (mkSt w o)) = Ok (JStr v) /\
      fst (get_metadata n (mkSt w o)) =
        Ok (JObj (match m with Some d => d | None => [] end)).
Proof.
  intros Hv0 Hr Hpers Hwf.
  assert (HI : Inv false (snd (add_credential n v m s))).
  { apply Inv_add_credential; auto. apply (reachable_Inv false w0); auto. discriminate. }
  destruct (add_credential_ok s pw n v m Hpers) as (w1 & E & Hpers1 & Hv1).
  rewrite E in *. cbn [fst snd] in *.
  set (creds1 := dict_set n (added (world s) n v m) (_credentials (self s))) in *.
  set (o1 := with_credentials creds1 (self s)) in *.
  assert (Hg : dict_get n (_credentials (self (mkSt w1 o1))) = Some (added (world s) n v m))
    by (apply dict_get_set_same).
  destruct Hpers1 as (Hp & Hne & Hs & Hc & Hw & Hcw).
  split; [reflexivity|].
  split; [exact (get_credential_ok (mkSt w1 o1) n pw _ Hg Hp Hs Hw)|].
  split; [exact (get_metadata_ok (mkSt w1 o1) n _ Hg)|].
  destruct (close_ok (mkSt w1 o1) pw) as (iv & w2 & -> & Hv2 & Hc2 & Hw2).
  { repeat split; auto. }
  { exact Hv1. }
  cbn [fst snd world]. split; [reflexivity|]. intros auto.
  destruct HI as (_ & Hcr & _). cbn [self] in Hcr.
  exists (mkVault auto (Some pw) creds1 (_config (self s))), w2.
  split.
  - apply (__init___reopens _ w2 pw auto (_config (self s)) iv creds1 Hv2 Hc2 Hs Hne Hcr).
  - split.
    + apply (get_credential_ok
               (mkSt w2 (mkVault auto (Some pw) creds1 (_config (self s))))
               n pw (added (world s) n v m)); auto.
    + apply (get_metadata_ok
               (mkSt w2 (mkVault auto (Some pw) creds1 (_config (self s))))
               n (added (world s) n v m)). exact Hg.
Qed.

End RoundTrip.

Lemma demo_fresh_reachable : reachable Demo.w0 Demo.fresh.
Proof.
  unfold Demo.fresh, Demo.after. apply reach_call; [|reflexivity].
  apply (reach_open Demo.w0 (Some "hunter2") true). reflexivity.
Defined.

Lemma demo_fresh_persistent : persistent "hunter2" Demo.fresh.
Proof.
  split; [reflexivity|]. split; [discriminate|].
  split; [vm_compute; discriminate|]. split; [reflexivity|].
  split; [reflexivity|]. intros _. reflexivity.
Defined.

Lemma credential_round_trip_witness :
  vault_file Demo.w0 = None /\
  reachable Demo.w0 Demo.fresh /\
  persistent "hunter2" Demo.fresh /\
  call_wf (CAdd "k" "v1" (Some [("env", JStr "prod")])) = true /\
  fst (get_credential "k"
         (snd (add_credential "k" "v1" (Some [("env", JStr "prod")]) Demo.fresh))) =
  Ok (JStr "v1").
Proof.
  split; [reflexivity|]. split; [exact demo_fresh_reachable|].
  split; [exact demo_fresh_persistent|]. split; [reflexivity|].
  exact (proj1 (proj2
    (credential_round_trip Demo.w0 Demo.fresh "hunter2" "k" "v1"
       (Some [("env", JStr "prod")]) eq_refl demo_fresh_reachable
       demo_fresh_persistent eq_refl))).
Defined.

(** C5 fails on the code, for a vault that was constructed on an empty
    directory and never initialised or saved: [add_credential] returns,
    [get_credential] and [get_metadata] give the value and the metadata
    back, and the auto-save has written the store; but the salt the key
    was derived from lives only in the object, since the auto-save does
    not write [config.json]. Closing has nothing left to do, and
    [Vault(password="hunter2")] on the same directory draws a new salt
    and raises [AuthenticationError]. *)
Theorem auto_saved_vault_does_not_reopen :
  vault_file Demo.w0 = None /\
  config_file Demo.w0 = None /\
  fst (__init__ (Some "hunter2") true Demo.w0) = Ok (self Demo.bare) /\
  fst (add_credential "k" "v1" (Some [("env", JStr "prod")]) Demo.bare) = Ok tt /\
  snd (add_credential "k" "v1" (Some [("env", JStr "prod")]) Demo.bare) =
    Demo.bare_one /\
  fst (get_credential "k" Demo.bare_one) = Ok (JStr "v1") /\
  fst (get_metadata "k" Demo.bare_one) = Ok (JObj [("env", JStr "prod")]) /\
  vault_file (world Demo.bare_one) <> None /\
  config_file (world Demo.bare_one) = None /\
  close Demo.bare_one = (Ok tt, Demo.bare_one) /\
  fst (__init__ (Some "hunter2") true (world (snd (close Demo.bare_one)))) =
    Raise AuthenticationError.
Proof.
  assert (Ha : auto_save (self Demo.bare_one) = true) by (vm_compute; reflexivity).
  assert (Hc : close Demo.bare_one = (Ok tt, Demo.bare_one))
    by (unfold close; now rewrite Ha).
  split; [reflexivity|]. split; [reflexivity|].
  split; [vm_compute; reflexivity|]. split; [vm_compute; reflexivity|].
  split; [reflexivity|]. split; [vm_compute; reflexivity|].
  split; [vm_compute; reflexivity|]. split; [vm_compute; discriminate|].
  split; [vm_compute; reflexivity|]. split; [exact Hc|].
  rewrite Hc. vm_compute. reflexivity.
Qed.

(** ** Backups *)

Lemma ltb_leb (x y : string) : String.ltb x y = true -> String.leb x y = true.
Proof. unfold String.ltb, String.leb. now destruct (String.compare x y). Qed.

Lemma ltb_neq (x y : string) : String.ltb x y = true -> x <> y.
Proof.
  unfold String.ltb. intros H ->.
  pose proof (String.compare_antisym y y) as Ha.
  destruct (String.compare y y); discriminate.
Qed.

Lemma sorted_ascending (l : list string) : ascending l = true -> sorted l = l.
Proof.
  induction l as [|x r IH]; [reflexivity|].
  cbn [ascending]. intros [Hx Hr]%andb_true_iff.
  unfold sorted in *. cbn [fold_right]. rewrite (IH Hr).
  destruct r as [|y r']; [reflexivity|].
  cbn [forallb] in Hx. apply andb_true_iff in Hx as [Hxy _].
  cbn [insert_sorted]. now rewrite (ltb_leb _ _ Hxy).
Qed.

Lemma ascending_NoDup (l : list string) : ascending l = true -> NoDup l.
Proof.
  induction l as [|x r IH]; [constructor|].
  cbn [ascending]. intros [Hx Hr]%andb_true_iff.
  constructor; [|now apply IH].
  intros Hin. rewrite forallb_forall in Hx.
  now apply (ltb_neq _ _ (Hx x Hin)).
Qed.

Lemma ascending_app_last (l : list string) (n : string) :
  ascending (l ++ [n]) = true -> ~ In n l.
Proof.
  intros H Hin. apply ascending_NoDup in H.
  apply NoDup_remove_2 in H. apply H. rewrite app_nil_r. exact Hin.
Qed.

Lemma ends_with_refl (s : string) : ends_with s s = true.
Proof. destruct s; cbn [ends_with]; now rewrite String.eqb_refl. Qed.

Lemma ends_with_app (x suffix : string) : ends_with suffix (x ++ suffix) = true.
Proof.
  induction x as [|c x IH]; cbn [append].
  - apply ends_with_refl.
  - cbn [ends_with]. rewrite IH. apply orb_true_r.
Qed.

Lemma substring_all (s : string) : String.substring 0 (String.length s) s = s.
Proof. induction s as [|c s IH]; cbn; [reflexivity | now rewrite IH]. Qed.

Lemma glob_backup_vault (x : string) : glob_backup ("vault_" ++ x ++ ".enc") = true.
Proof.
  unfold glob_backup. cbn.
  replace (String.prefix "" (x ++ ".enc")) with true by now destruct (x ++ ".enc").
  cbn [andb]. rewrite Nat.sub_0_r, substring_all. apply ends_with_app.
Qed.

Section DictAppend.
Context {V : Type}.

Lemma dict_set_new (k : string) (v : V) (d : pydict V) :
  ~ In k (dict_keys d) -> dict_set k v d = (d ++ [(k, v)])%list.
Proof.
  induction d as [|[k0 v0] r IH]; cbn [dict_set dict_keys map fst app]; intros Hk.
  - reflexivity.
  - destruct (String.eqb_spec k k0) as [->|Hne].
    + exfalso. apply Hk. now left.
    + rewrite IH; [reflexivity|]. intros H. apply Hk. now right.
Qed.

Lemma dict_del_absent (k : string) (d : pydict V) :
  ~ In k (dict_keys d) -> dict_del k d = d.
Proof.
  induction d as [|[k0 v0] r IH]; cbn [dict_del dict_keys map fst]; intros Hk.
  - reflexivity.
  - destruct (String.eqb_spec k k0) as [->|Hne].
    + exfalso. apply Hk. now left.
    + rewrite IH; [reflexivity|]. intros H. apply Hk. now right.
Qed.

Lemma dict_del_app (k : string) (d e : pydict V) :
  dict_del k (d ++ e)%list = (dict_del k d ++ dict_del k e)%list.
Proof.
  induction d as [|[k0 v0] r IH]; cbn [dict_del app]; [reflexivity|].
  destruct (String.eqb k k0); [exact IH | cbn [app]; now rewrite IH].
Qed.
End DictAppend.

Section Backups.
Context {ext : Externals}.

Lemma directory_keys files0 b l :
  dict_keys (directory files0 b l) = (dict_keys files0 ++ l)%list.
Proof.
  unfold directory, dict_keys. rewrite map_app, map_map. cbn [fst].
  now rewrite map_id.
Qed.

Lemma set_backup_files_same (w : World) : set_backup_files (backup_files w) w = w.
Proof. now destruct w. Qed.

(** The loop of [_cleanup_backups] unlinks from the front until
    [max_backups] names are left. *)
Lemma cleanup_while_prunes (max_backups : Z) (l : list string) (s : St) files0 b :
  0 <= max_backups ->
  NoDup l ->
  (forall x, In x l -> ~ In x (dict_keys files0)) ->
  backup_files (world s) = directory files0 b l ->
  cleanup_while max_backups l s =
  (Ok tt,
   mkSt (set_backup_files
           (directory files0 b (skipn (List.length l - Z.to_nat max_backups) l))
           (world s))
        (self s)).
Proof.
  intros Hmax. revert s.
  induction l as [|x r IH]; intros [w o] Hnd H0 Hb; msimpl; cbn [cleanup_while].
  - cbn [List.length Nat.sub skipn]. rewrite <- Hb, set_backup_files_same. reflexivity.
  - inversion Hnd as [|? ? Hx Hr]; subst.
    destruct (Z.of_nat (List.length (x :: r)) >? max_backups) eqn:E.
    + apply Z.gtb_lt in E. cbn [List.length] in E.
      replace (List.length (x :: r) - Z.to_nat max_backups)%nat
        with (S (List.length r - Z.to_nat max_backups)) by (cbn [List.length]; lia).
      cbn [skipn]. mrun.
      rewrite IH with (s := mkSt (set_backup_files (dict_del x (backup_files w)) w) o);
        msimpl; auto.
      * intros y Hy. apply H0. now right.
      * rewrite Hb. unfold directory. cbn [map]. rewrite dict_del_app.
        rewrite dict_del_absent by (apply H0; now left).
        cbn [dict_del]. rewrite String.eqb_refl.
        rewrite dict_del_absent; [reflexivity|].
        unfold dict_keys. rewrite map_map. cbn [fst]. now rewrite map_id.
    + assert (Hle : Z.of_nat (List.length (x :: r)) <= max_backups).
      { destruct (Z.gtb_spec (Z.of_nat (List.length (x :: r))) max_backups);
          [discriminate | assumption]. }
      replace (List.length (x :: r) - Z.to_nat max_backups)%nat with O by lia.
      cbn [skipn]. rewrite <- Hb, set_backup_files_same. reflexivity.
Qed.

Lemma glob_backup_name (t : datetime) : glob_backup (backup_name t) = true.
Proof. apply glob_backup_vault. Qed.

Lemma filter_nil_not_in {A} (f : A -> bool) (l : list A) (x : A) :
  filter f l = [] -> f x = true -> ~ In x l.
Proof.
  intros Hf Hx Hin.
  assert (H : In x (filter f l)) by (apply filter_In; auto).
  rewrite Hf in H. exact H.
Qed.

Lemma filter_all {A} (f : A -> bool) (l : list A) :
  forallb f l = true -> filter f l = l.
Proof.
  induction l as [|x r IH]; cbn [forallb filter]; [reflexivity|].
  intros [-> Hr]%andb_true_iff. now rewrite IH.
Qed.

(** One [backup()] when the directory holds the backups [l] and the new
    name comes after them. *)
Lemma backup_step (s : St) (b : blob) files0 (l : list string) :
  auto_backup (settings (_config (self s))) = true ->
  backup_count (settings (_config (self s))) = 3 ->
  vault_file (world s) = Some b ->
  backup_files (world s) = directory files0 b l ->
  filter glob_backup (dict_keys files0) = [] ->
  forallb glob_backup l = true ->
  ascending (l ++ [backup_name (clock (world s) (ticks (world s)))]) = true ->
  backup s =
  (Ok (backup_name (clock (world s) (ticks (world s)))),
   mkSt (set_backup_files
           (directory files0 b
              (skipn (List.length (l ++ [backup_name (clock (world s) (ticks (world s)))]) - 3)
                 (l ++ [backup_name (clock (world s) (ticks (world s)))])))
           (set_ticks (S (ticks (world s))) (world s)))
        (self s)).
Proof.
  destruct s as [w o]. msimpl. intros Ha Hc Hv Hb H0 Hg Hasc.
  set (n := backup_name (clock w (ticks w))) in *.
  assert (Hgn : glob_backup n = true) by apply glob_backup_name.
  assert (Hn0 : ~ In n (dict_keys files0))
    by (apply (filter_nil_not_in glob_backup); [exact H0 | exact Hgn]).
  assert (Hnl : ~ In n l) by now apply ascending_app_last.
  unfold backup. mrun. rewrite Hv. msimpl. fold n. rewrite Hb.
  assert (Hset : dict_set n b (directory files0 b l) = directory files0 b (l ++ [n])).
  { rewrite dict_set_new.
    - unfold directory. now rewrite map_app, app_assoc.
    - rewrite directory_keys. intros [H|H]%in_app_or; contradiction. }
  rewrite Hset. unfold _cleanup_backups. mrun. rewrite Ha, Hc.
  cbn [negb Z.leb Z.compare]. msimpl.
  rewrite directory_keys, filter_app, H0. cbn [app].
  rewrite filter_all
    by (rewrite forallb_app, Hg; cbn [forallb]; now rewrite Hgn).
  rewrite (sorted_ascending _ Hasc).
  erewrite cleanup_while_prunes with (files0 := files0) (b := b); msimpl.
  - reflexivity.
  - lia.
  - now apply ascending_NoDup.
  - intros x [Hx|[<-|[]]]%in_app_or; [|exact Hn0].
    apply (filter_nil_not_in glob_backup); [exact H0|].
    rewrite forallb_forall in Hg. now apply Hg.
  - reflexivity.
Qed.

End Backups.

Section Pruning.
Context {ext : Externals}.

(** C8, as the code has it. With [backup_count = 3], [auto_backup] set
    and no [vault_*.enc] file in the backup directory yet, five
    [backup()] calls whose timestamp names come in strictly increasing
    order (the clock shows another, later second at each call) leave
    exactly the three most recent backups, in that order when sorted: the
    fourth call unlinks the first backup, the fifth the second. *)
Theorem five_backups_keep_three (s : St) (b : blob) :
  auto_backup (settings (_config (self s))) = true ->
  backup_count (settings (_config (self s))) = 3 ->
  vault_file (world s) = Some b ->
  filter glob_backup (dict_keys (backup_files (world s))) = [] ->
  ascending
    (map (fun i => backup_name (clock (world s) (i + ticks (world s))))
       [0; 1; 2; 3; 4]%nat) = true ->
  backup_files (world (backups 4 s)) =
    (backup_files (world s) ++
     map (fun i => (backup_name (clock (world s) (i + ticks (world s))), b))
       [1; 2; 3]%nat)%list /\
  backup_files (world (backups 5 s)) =
    (backup_files (world s) ++
     map (fun i => (backup_name (clock (world s) (i + ticks (world s))), b))
       [2; 3; 4]%nat)%list /\
  sorted (filter glob_backup (dict_keys (backup_files (world (backups 5 s))))) =
    map (fun i => backup_name (clock (world s) (i + ticks (world s)))) [2; 3; 4]%nat.
Proof.
  destruct s as [w o]. msimpl. intros Ha Hc Hv H0 Hasc.
  cbn [map Nat.add] in *.
  set (t := ticks w) in *. set (files0 := backup_files w) in *.
  set (n0 := backup_name (clock w t)) in *.
  set (n1 := backup_name (clock w (S t))) in *.
  set (n2 := backup_name (clock w (S (S t)))) in *.
  set (n3 := backup_name (clock w (S (S (S t))))) in *.
  set (n4 := backup_name (clock w (S (S (S (S t)))))) in *.
  assert (Hg : forall x, glob_backup (backup_name x) = true) by apply glob_backup_name.
  cbn [ascending forallb] in Hasc.
  repeat (apply andb_true_iff in Hasc as [? Hasc]).
  repeat match goal with H : (_ && _)%bool = true |- _ =>
    apply andb_true_iff in H as [? ?] end.
  assert (E1 : backups 1 (mkSt w o) =
               mkSt (set_backup_files (directory files0 b [n0]) (set_ticks (S t) w)) o).
  { cbn [backups]. rewrite (backup_step (mkSt w o) b files0 []); msimpl; auto.
    unfold directory, files0. cbn [map]. now rewrite app_nil_r. }
  assert (E2 : backups 2 (mkSt w o) =
               mkSt (set_backup_files (directory files0 b [n0; n1])
                       (set_ticks (S (S t)) w)) o).
  { change (backups 2 (mkSt w o)) with (snd (backup (backups 1 (mkSt w o)))).
    rewrite E1. rewrite (backup_step _ b files0 [n0]); msimpl; auto.
    - cbn [forallb]. unfold n0. now rewrite Hg.
    - fold n1. cbn [app ascending forallb]. now rewrite H. }
  assert (E3 : backups 3 (mkSt w o) =
               mkSt (set_backup_files (directory files0 b [n0; n1; n2])
                       (set_ticks (S (S (S t))) w)) o).
  { change (backups 3 (mkSt w o)) with (snd (backup (backups 2 (mkSt w o)))).
    rewrite E2. rewrite (backup_step _ b files0 [n0; n1]); msimpl; auto.
    - cbn [forallb]. unfold n0, n1. now rewrite !Hg.
    - fold n2. cbn [app ascending forallb].
      repeat match goal with H : String.ltb _ _ = true |- _ => rewrite H; clear H end.
      reflexivity. }
  assert (E4 : backups 4 (mkSt w o) =
               mkSt (set_backup_files (directory files0 b [n1; n2; n3])
                       (set_ticks (S (S (S (S t)))) w)) o).
  { change (backups 4 (mkSt w o)) with (snd (backup (backups 3 (mkSt w o)))).
    rewrite E3. rewrite (backup_step _ b files0 [n0; n1; n2]); msimpl; auto.
    - cbn [forallb]. unfold n0, n1, n2. now rewrite !Hg.
    - fold n3. cbn [app ascending forallb].
      repeat match goal with H : String.ltb _ _ = true |- _ => rewrite H; clear H end.
      reflexivity. }
  assert (E5 : backups 5 (mkSt w o) =
               mkSt (set_backup_files (directory files0 b [n2; n3; n4])
                       (set_ticks (S (S (S (S (S t))))) w)) o).
  { change (backups 5 (mkSt w o)) with (snd (backup (backups 4 (mkSt w o)))).
    rewrite E4. rewrite (backup_step _ b files0 [n1; n2; n3]); msimpl; auto.
    - cbn [forallb]. unfold n1, n2, n3. now rewrite !Hg.
    - fold n4. cbn [app ascending forallb].
      repeat match goal with H : String.ltb _ _ = true |- _ => rewrite H; clear H end.
      reflexivity. }
  rewrite E4, E5. msimpl. split; [reflexivity|]. split; [reflexivity|].
  rewrite directory_keys, filter_app, H0. cbn [app filter].
  unfold n2, n3, n4 at 1. rewrite !Hg. fold n2 n3 n4.
  apply sorted_ascending. cbn [ascending forallb].
  repeat match goal with H : String.ltb _ _ = true |- _ => rewrite H; clear H end.
  reflexivity.
Qed.

End Pruning.

Lemma five_backups_keep_three_witness :
  auto_backup (settings (_config (self (Demo.paced 1000000)))) = true /\
  backup_count (settings (_config (self (Demo.paced 1000000)))) = 3 /\
  vault_file (world (Demo.paced 1000000)) = Some Demo.stored /\
  filter glob_backup (dict_keys (backup_files (world (Demo.paced 1000000)))) = [] /\
  ascending
    (map (fun i => backup_name (clock (world (Demo.paced 1000000))
                                  (i + ticks (world (Demo.paced 1000000)))))
       [0; 1; 2; 3; 4]%nat) = true /\
  sorted (filter glob_backup
            (dict_keys (backup_files (world (backups 5 (Demo.paced 1000000)))))) =
  map (fun i => backup_name (clock (world (Demo.paced 1000000))
                               (i + ticks (world (Demo.paced 1000000)))))
    [2; 3; 4]%nat.
Proof.
  assert (H1 : auto_backup (settings (_config (self (Demo.paced 1000000)))) = true)
    by (vm_compute; reflexivity).
  assert (H2 : backup_count (settings (_config (self (Demo.paced 1000000)))) = 3)
    by (vm_compute; reflexivity).
  assert (H3 : vault_file (world (Demo.paced 1000000)) = Some Demo.stored)
    by (vm_compute; reflexivity).
  assert (H4 : filter glob_backup
                 (dict_keys (backup_files (world (Demo.paced 1000000)))) = [])
    by (vm_compute; reflexivity).
  assert (H5 : ascending
                 (map (fun i => backup_name (clock (world (Demo.paced 1000000))
                                               (i + ticks (world (Demo.paced 1000000)))))
                    [0; 1; 2; 3; 4]%nat) = true)
    by (vm_compute; reflexivity).
  split; [exact H1|]. split; [exact H2|]. split; [exact H3|].
  split; [exact H4|]. split; [exact H5|].
  exact (proj2 (proj2
    (five_backups_keep_three (Demo.paced 1000000) Demo.stored H1 H2 H3 H4 H5))).
Defined.

(** C8 fails on the code when the calls share a clock second: the five
    backups get one name, each copy overwrites the last, and one file
    remains. *)
Lemma five_quick_backups_leave_one :
  auto_backup (settings (_config (self (Demo.paced 1)))) = true /\
  backup_count (settings (_config (self (Demo.paced 1)))) = 3 /\
  dict_keys (backup_files (world (Demo.paced 1))) = [] /\
  dict_keys (backup_files (world (backups 5 (Demo.paced 1)))) =
    ["vault_000000000000000.enc"] /\
  List.length (backup_files (world (backups 5 (Demo.paced 1)))) <> 3%nat.
Proof.
  split; [vm_compute; reflexivity|]. split; [vm_compute; reflexivity|].
  split; [vm_compute; reflexivity|].
  split; [vm_compute; reflexivity|]. vm_compute. discriminate.
Qed.

(** ** Changing the password *)

(** C2 fails on the code. In a vault that opens with its password, with
    [config.json] read-only, [change_password] raises [EncryptionError]
    after it has replaced the store: the object has its old password back
    but keeps the new salt, the store on disk is the one encrypted under
    the new password and salt while [config.json] still holds the old
    salt, and the vault opens with neither password. *)
Theorem change_password_failure_locks_vault :
  (exists o, fst (__init__ (Some "hunter2") true (world Demo.readonly)) = Ok o) /\
  fst (change_password "s3cret" Demo.readonly) = Raise EncryptionError /\
  _password (self (snd (change_password "s3cret" Demo.readonly))) = Some "hunter2" /\
  salt (_config (self (snd (change_password "s3cret" Demo.readonly)))) <>
    salt (_config (self Demo.readonly)) /\
  vault_file (world (snd (change_password "s3cret" Demo.readonly))) <>
    vault_file (world Demo.readonly) /\
  config_file (world (snd (change_password "s3cret" Demo.readonly))) =
    config_file (world Demo.readonly) /\
  fst (__init__ (Some "hunter2") true
         (world (snd (change_password "s3cret" Demo.readonly)))) =
    Raise AuthenticationError /\
  fst (__init__ (Some "s3cret") true
         (world (snd (change_password "s3cret" Demo.readonly)))) =
    Raise AuthenticationError.
Proof.
  split; [eexists; vm_compute; reflexivity|].
  split; [vm_compute; reflexivity|].
  split; [vm_compute; reflexivity|].
  split; [vm_compute; discriminate|].
  split; [vm_compute; discriminate|].
  split; [vm_compute; reflexivity|].
  split; vm_compute; reflexivity.
Qed.

(** * Further properties of the code *)

(** ** Credentials *)

Section CredentialFacts.
Context {ext : Externals}.


(** X2. A credential whose metadata is a non-empty value or [{}] and that
    holds Python values goes through [to_json] and [from_json] unchanged,
    without a reading of the clock; text that is not JSON makes
    [from_json] raise. *)
Theorem from_json_to_json (c : Credential) (w : World) :
  or_empty (metadata c) = metadata c ->
  json_wf (to_dict c) = true ->
  from_json (to_json c) w = (Ok c, w) /\
  forall text, json_loads text = None ->
    from_json text w = (Raise JSONDecodeError, w).
Proof.
  intros Hn Hwf. unfold from_json, to_json. split.
  - rewrite (json_roundtrip _ Hwf). now apply from_dict_to_dict_normal.
  - intros text ->. reflexivity.
Qed.

(** X3. [from_dict] raises [AttributeError] on anything but an object and
    [KeyError] on an object without a ["name"] or a ["value"]; on every
    other record it returns a credential with that name and value. *)
Theorem from_dict_result (d : json) (w : World) :
  match d with
  | JObj o =>
      if has_name_value d
      then exists c, fst (from_dict d w) = Ok c /\
                     dict_get "name" o = Some (name c) /\
                     dict_get "value" o = Some (value c)
      else fst (from_dict d w) = Raise KeyError
  | _ => fst (from_dict d w) = Raise AttributeError
  end.
Proof.
  destruct d as [| | | | |o]; try reflexivity.
  cbn [has_name_value]. unfold dict_mem.
  destruct (dict_get "name" o) as [n|] eqn:En.
  - destruct (dict_get "value" o) as [v|] eqn:Ev; cbn [andb].
    + destruct (from_dict_spec o w n v En Ev) as (c & w' & E & _ & Hn & Hv & _).
      exists c. rewrite E. subst. auto.
    + unfold from_dict, json_index, bind. rewrite En, Ev.
      destruct (parse_datetime_later (json_get "created_at" o) w) as (x1 & w1 & -> & _).
      destruct (parse_datetime_later (json_get "updated_at" o) w1) as (x2 & w2 & -> & _).
      destruct (parse_datetime_later (json_get "last_accessed" o) w2) as (x3 & w3 & -> & _).
      reflexivity.
  - cbn [andb]. unfold from_dict, json_index, bind. rewrite En.
    destruct (parse_datetime_later (json_get "created_at" o) w) as (x1 & w1 & -> & _).
    destruct (parse_datetime_later (json_get "updated_at" o) w1) as (x2 & w2 & -> & _).
    destruct (parse_datetime_later (json_get "last_accessed" o) w2) as (x3 & w3 & -> & _).
    reflexivity.
Qed.

Lemma dict_get_update {V : Type} (d items : pydict V) (k : string) :
  dict_wf items ->
  dict_get k (dict_update d items) =
  match dict_get k items with
  | Some v => Some v
  | None => dict_get k d
  end.
Proof.
  unfold dict_update. revert d.
  induction items as [|[k0 v0] r IH]; intros d Hwf; cbn [fold_left fst snd].
  - reflexivity.
  - inversion Hwf as [|? ? Hk0 Hr]; subst. rewrite (IH _ Hr). cbn [dict_get].
    destruct (String.eqb_spec k k0) as [->|Hne].
    + apply dict_get_None in Hk0. rewrite Hk0. apply dict_get_set_same.
    + destruct (dict_get k r); [reflexivity|]. now apply dict_get_set_other.
Qed.

(** X4. [update_metadata] merges: in the new metadata a key of the patch
    has the patch's value and every other key keeps its old value; name,
    value, [created_at] and [last_accessed] stay, and [updated_at] becomes
    the current time. *)
Theorem update_metadata_merges (patch m : pydict json) (c : Credential) (w : World) :
  metadata c = JObj m ->
  dict_wf patch ->
  exists m',
    update_metadata patch c w =
      (Ok (mkCredential (name c) (value c) (created_at c) (clock w (ticks w))
             (last_accessed c) (JObj m')),
       set_ticks (S (ticks w)) w) /\
    forall k,
      dict_get k m' =
      match dict_get k patch with
      | Some v => Some v
      | None => dict_get k m
      end.
Proof.
  intros Hm Hwf. exists (dict_update m patch). split.
  - unfold update_metadata. rewrite Hm. reflexivity.
  - intros k. now apply dict_get_update.
Qed.

End CredentialFacts.

Lemma from_json_to_json_witness :
  or_empty (JObj [("env", JStr "prod")]) = JObj [("env", JStr "prod")] /\
  json_wf (to_dict (mkCredential (JStr "k") (JStr "v") 1 2 (Some 3)
                      (JObj [("env", JStr "prod")]))) = true /\
  from_json (to_json (mkCredential (JStr "k") (JStr "v") 1 2 (Some 3)
                        (JObj [("env", JStr "prod")]))) Demo.w0 =
  (Ok (mkCredential (JStr "k") (JStr "v") 1 2 (Some 3)
         (JObj [("env", JStr "prod")])), Demo.w0).
Proof.
  split; [reflexivity|]. split; [reflexivity|].
  exact (proj1 (from_json_to_json
                  (mkCredential (JStr "k") (JStr "v") 1 2 (Some 3)
                     (JObj [("env", JStr "prod")]))
                  Demo.w0 eq_refl eq_refl)).
Defined.

Lemma update_metadata_merges_witness :
  metadata (mkCredential (JStr "k") (JStr "v") 1 2 None
              (JObj [("env", JStr "prod"); ("team", JStr "ml")])) =
    JObj [("env", JStr "prod"); ("team", JStr "ml")] /\
  dict_wf [("env", JStr "dev")] /\
  exists m',
    fst (update_metadata [("env", JStr "dev")]
           (mkCredential (JStr "k") (JStr "v") 1 2 None
              (JObj [("env", JStr "prod"); ("team", JStr "ml")])) Demo.w0) =
    Ok (mkCredential (JStr "k") (JStr "v") 1 0 None (JObj m')) /\
    dict_get "team" m' = Some (JStr "ml") /\
    dict_get "env" m' = Some (JStr "dev").
Proof.
  assert (Hwf : dict_wf [("env", JStr "dev")])
    by (unfold dict_wf; cbn; constructor; [intros [] | constructor]).
  split; [reflexivity|]. split; [exact Hwf|].
  destruct (update_metadata_merges [("env", JStr "dev")]
              [("env", JStr "prod"); ("team", JStr "ml")]
              (mkCredential (JStr "k") (JStr "v") 1 2 None
                 (JObj [("env", JStr "prod"); ("team", JStr "ml")]))
              Demo.w0 eq_refl Hwf) as (m' & E & Hm').
  exists m'. split; [now rewrite E|].
  split; [exact (Hm' "team") | exact (Hm' "env")].
Defined.

(** ** Reading, changing and removing one credential *)

Section OneName.
Context {ext : Externals}.

Lemma get_credential_absent (s : St) (n : string) :
  dict_get n (_credentials (self s)) = None ->
  get_credential n s = (Raise CredentialNotFoundError, s).
Proof.
  intros Hg. destruct s as [w o]. msimpl. unfold get_credential. mrun.
  now rewrite Hg.
Qed.

Lemma remove_credential_present (s : St) (n : string) (c : Credential) :
  dict_get n (_credentials (self s)) = Some c ->
  remove_credential n s =
  save_if_auto (mkSt (world s) (with_credentials (dict_del n (_credentials (self s))) (self s))).
Proof.
  intros Hg. destruct s as [w o]. msimpl.
  unfold remove_credential, dict_mem. mrun. now rewrite Hg.
Qed.

(** X5. On a name the vault does not hold, [get_credential],
    [remove_credential], [set_metadata] and [get_metadata] raise
    [CredentialNotFoundError] and leave the object and the world as they
    were: no reading of the clock, no save. *)
Theorem absent_name_raises (s : St) (n : string) :
  dict_get n (_credentials (self s)) = None ->
  get_credential n s = (Raise CredentialNotFoundError, s) /\
  remove_credential n s = (Raise CredentialNotFoundError, s) /\
  (forall m, set_metadata n m s = (Raise CredentialNotFoundError, s)) /\
  get_metadata n s = (Raise CredentialNotFoundError, s).
Proof.
  intros Hg. destruct s as [w o]. msimpl.
  unfold get_credential, remove_credential, set_metadata, get_metadata, dict_mem.
  mrun. rewrite Hg. repeat split.
Qed.

Lemma dict_keys_set_present {V : Type} (k : string) (v v0 : V) (d : pydict V) :
  dict_get k d = Some v0 -> dict_keys (dict_set k v d) = dict_keys d.
Proof. intros H. rewrite dict_keys_set. unfold dict_mem. now rewrite H. Qed.

Lemma save_if_auto_result (s : St) :
  fst (save_if_auto s) = Ok tt \/
  (auto_save (self s) = true /\ fst (save_if_auto s) = Raise EncryptionError).
Proof.
  unfold save_if_auto, bind, gets, ret. destruct (auto_save (self s)); [|now left].
  destruct (_save_vault_cases s) as (w' & _ & [[-> _] | (k & iv & -> & _)]);
    cbn [fst]; auto.
Qed.

(** X6. [get_credential] on a stored name returns its value. With
    [log_access] off nothing changes at all. With [log_access] on the
    record gets the current time as [last_accessed] and is otherwise the
    same, the order of names stays, and the call saves under auto-save:
    a read can then raise [EncryptionError], with the access time already
    recorded in memory. *)
Theorem get_credential_records_access (s : St) (n : string) (c : Credential) :
  dict_get n (_credentials (self s)) = Some c ->
  (log_access (settings (_config (self s))) = false ->
   get_credential n s = (Ok (value c), s)) /\
  (log_access (settings (_config (self s))) = true ->
   dict_get n (_credentials (self (snd (get_credential n s)))) =
     Some (mkCredential (name c) (value c) (created_at c) (updated_at c)
             (Some (clock (world s) (ticks (world s)))) (metadata c)) /\
   list_credentials (self (snd (get_credential n s))) = list_credentials (self s) /\
   (fst (get_credential n s) = Ok (value c) \/
    (auto_save (self s) = true /\
     fst (get_credential n s) = Raise EncryptionError))).
Proof.
  intros Hg. destruct s as [w o]. msimpl.
  unfold get_credential. mrun. rewrite Hg. msimpl. split.
  - intros ->. reflexivity.
  - intros ->. msimpl.
    match goal with |- context [save_if_auto ?st] =>
      pose proof (save_if_auto_self st) as Hs;
      pose proof (save_if_auto_result st) as Hr;
      destruct (save_if_auto st) as [[[]|e] s'] end;
      cbn [fst snd] in *; rewrite Hs; msimpl; unfold list_credentials; msimpl.
    + split; [apply dict_get_set_same|].
      split; [now apply (dict_keys_set_present _ _ c) | now left].
    + split; [apply dict_get_set_same|].
      split; [now apply (dict_keys_set_present _ _ c)|].
      right. destruct Hr as [Hr|[Ha Hr]]; [discriminate|].
      injection Hr as ->. now split.
Qed.

Lemma dict_keys_del {V : Type} (k : string) (d : pydict V) :
  dict_keys (dict_del k d) = filter (fun x => negb (String.eqb k x)) (dict_keys d).
Proof.
  induction d as [|[k0 v0] r IH]; cbn [dict_del dict_keys map fst filter]; [reflexivity|].
  destruct (String.eqb k k0); cbn [negb map fst]; [exact IH | f_equal; exact IH].
Qed.

(** X7. [remove_credential] on a stored name deletes exactly that entry:
    the other names keep their order, [get_credential] on the name then
    raises [CredentialNotFoundError], and the only exception of the call
    itself is the [EncryptionError] of a failed auto-save, raised after
    the entry is gone from memory. *)
Theorem remove_credential_removes (s : St) (n : string) (c : Credential) :
  dict_get n (_credentials (self s)) = Some c ->
  _credentials (self (snd (remove_credential n s))) =
    dict_del n (_credentials (self s)) /\
  list_credentials (self (snd (remove_credential n s))) =
    filter (fun x => negb (String.eqb n x)) (list_credentials (self s)) /\
  fst (get_credential n (snd (remove_credential n s))) =
    Raise CredentialNotFoundError /\
  (fst (remove_credential n s) = Ok tt \/
   (auto_save (self s) = true /\
    fst (remove_credential n s) = Raise EncryptionError)).
Proof.
  intros Hg. destruct s as [w o]. msimpl.
  unfold remove_credential, dict_mem. mrun. rewrite Hg. msimpl.
  match goal with |- context [save_if_auto ?st] =>
    pose proof (save_if_auto_self st) as Hs;
    pose proof (save_if_auto_result st) as Hr; set (s1 := save_if_auto st) in * end.
  msimpl.
  assert (Hc : _credentials (self (snd s1)) = dict_del n (_credentials o))
    by now rewrite Hs.
  split; [exact Hc|]. split; [|split].
  - unfold list_credentials. rewrite Hc. apply dict_keys_del.
  - assert (Hnone : dict_get n (_credentials (self (snd s1))) = None)
      by (rewrite Hc; apply dict_get_del_same).
    now rewrite (get_credential_absent (snd s1) n Hnone).
  - exact Hr.
Qed.

(** X8. [set_metadata] on a stored name replaces the metadata (it does
    not merge), sets [updated_at] to the current time and keeps name,
    value, [created_at], [last_accessed] and the order of names;
    [get_metadata] then returns the new metadata. *)
Theorem set_metadata_replaces (s : St) (n : string) (c : Credential) (m : pydict json) :
  dict_get n (_credentials (self s)) = Some c ->
  dict_get n (_credentials (self (snd (set_metadata n m s)))) =
    Some (mkCredential (name c) (value c) (created_at c)
            (clock (world s) (ticks (world s))) (last_accessed c) (JObj m)) /\
  list_credentials (self (snd (set_metadata n m s))) = list_credentials (self s) /\
  fst (get_metadata n (snd (set_metadata n m s))) = Ok (JObj m) /\
  (fst (set_metadata n m s) = Ok tt \/
   (auto_save (self s) = true /\
    fst (set_metadata n m s) = Raise EncryptionError)).
Proof.
  intros Hg. destruct s as [w o]. msimpl.
  unfold set_metadata. mrun. rewrite Hg. msimpl.
  match goal with |- context [save_if_auto ?st] =>
    pose proof (save_if_auto_self st) as Hs;
    pose proof (save_if_auto_result st) as Hr; set (s1 := save_if_auto st) in * end.
  msimpl.
  assert (Hget : dict_get n (_credentials (self (snd s1))) =
                 Some (mkCredential (name c) (value c) (created_at c)
                         (clock w (ticks w)) (last_accessed c) (JObj m)))
    by (rewrite Hs; msimpl; apply dict_get_set_same).
  split; [exact Hget|]. split; [|split].
  - unfold list_credentials. rewrite Hs. msimpl.
    now apply (dict_keys_set_present _ _ c).
  - now rewrite (get_metadata_ok (snd s1) n _ Hget).
  - exact Hr.
Qed.

(** X9. [add_credential] keeps the order of [list_credentials]: a new
    name goes to the end, a name that is already there keeps its
    place. *)
Theorem add_credential_lists (s : St) (n v : string) (m : option (pydict json)) :
  list_credentials (self (snd (add_credential n v m s))) =
  if dict_mem n (_credentials (self s))
  then list_credentials (self s)
  else (list_credentials (self s) ++ [n])%list.
Proof.
  rewrite add_credential_unfold, save_if_auto_self. msimpl.
  unfold list_credentials. msimpl. apply dict_keys_set.
Qed.

Lemma dict_del_set_new {V : Type} (k : string) (v : V) (d : pydict V) :
  dict_get k d = None -> dict_del k (dict_set k v d) = d.
Proof.
  intros H. apply dict_get_None in H.
  rewrite (dict_set_new _ _ _ H), dict_del_app, (dict_del_absent _ _ H).
  cbn [dict_del]. rewrite String.eqb_refl. apply app_nil_r.
Qed.

(** X10. Adding a name the vault does not hold and removing it again
    gives back the credentials the vault had, in the same order. *)
Theorem add_then_remove (s : St) (n v : string) (m : option (pydict json)) :
  dict_get n (_credentials (self s)) = None ->
  _credentials (self (snd (remove_credential n (snd (add_credential n v m s))))) =
  _credentials (self s).
Proof.
  intros Hg.
  assert (Hadd : _credentials (self (snd (add_credential n v m s))) =
                 dict_set n (added (world s) n v m) (_credentials (self s)))
    by (rewrite add_credential_unfold, save_if_auto_self; reflexivity).
  assert (Hin : dict_get n (_credentials (self (snd (add_credential n v m s)))) =
                Some (added (world s) n v m))
    by (rewrite Hadd; apply dict_get_set_same).
  rewrite (remove_credential_present _ n _ Hin), save_if_auto_self. msimpl.
  rewrite Hadd. now apply dict_del_set_new.
Qed.

End OneName.

Lemma absent_name_raises_witness :
  dict_get "missing" (_credentials (self Demo.one)) = None /\
  remove_credential "missing" Demo.one = (Raise CredentialNotFoundError, Demo.one).
Proof.
  assert (H : dict_get "missing" (_credentials (self Demo.one)) = None)
    by (vm_compute; reflexivity).
  split; [exact H|].
  apply (proj1 (proj2 (absent_name_raises Demo.one "missing" H))).
Defined.

Lemma get_credential_records_access_witness :
  dict_get "k" (_credentials (self Demo.one)) =
    Some (mkCredential (JStr "k") (JStr "v1") 2000000 3000000 None
            (JObj [("env", JStr "prod")])) /\
  log_access (settings (_config (self Demo.one))) = true /\
  dict_get "k" (_credentials (self (snd (get_credential "k" Demo.one)))) =
    Some (mkCredential (JStr "k") (JStr "v1") 2000000 3000000 (Some 4000000)
            (JObj [("env", JStr "prod")])).
Proof.
  assert (H : dict_get "k" (_credentials (self Demo.one)) =
              Some (mkCredential (JStr "k") (JStr "v1") 2000000 3000000 None
                      (JObj [("env", JStr "prod")])))
    by (vm_compute; reflexivity).
  assert (Hl : log_access (settings (_config (self Demo.one))) = true)
    by (vm_compute; reflexivity).
  assert (Ht : clock (world Demo.one) (ticks (world Demo.one)) = 4000000)
    by (vm_compute; reflexivity).
  split; [exact H|]. split; [exact Hl|].
  rewrite <- Ht.
  apply (proj1 (proj2 (get_credential_records_access Demo.one "k" _ H) Hl)).
Defined.

Lemma remove_credential_removes_witness :
  dict_get "api-key" (_credentials (self Demo.two)) =
    Some (mkCredential (JStr "api-key") (JStr "x") 2000000 3000000 None (JObj [])) /\
  list_credentials (self (snd (remove_credential "api-key" Demo.two))) =
    filter (fun x => negb (String.eqb "api-key" x)) (list_credentials (self Demo.two)).
Proof.
  assert (H : dict_get "api-key" (_credentials (self Demo.two)) =
              Some (mkCredential (JStr "api-key") (JStr "x") 2000000 3000000 None
                      (JObj [])))
    by (vm_compute; reflexivity).
  split; [exact H|].
  apply (proj1 (proj2 (remove_credential_removes Demo.two "api-key" _ H))).
Defined.

Lemma set_metadata_replaces_witness :
  dict_get "k" (_credentials (self Demo.one)) =
    Some (mkCredential (JStr "k") (JStr "v1") 2000000 3000000 None
            (JObj [("env", JStr "prod")])) /\
  fst (get_metadata "k" (snd (set_metadata "k" [("owner", JStr "ops")] Demo.one))) =
    Ok (JObj [("owner", JStr "ops")]).
Proof.
  assert (H : dict_get "k" (_credentials (self Demo.one)) =
              Some (mkCredential (JStr "k") (JStr "v1") 2000000 3000000 None
                      (JObj [("env", JStr "prod")])))
    by (vm_compute; reflexivity).
  split; [exact H|].
  apply (proj1 (proj2 (proj2
           (set_metadata_replaces Demo.one "k" _ [("owner", JStr "ops")] H)))).
Defined.

Lemma add_then_remove_witness :
  dict_get "tmp" (_credentials (self Demo.one)) = None /\
  _credentials
    (self (snd (remove_credential "tmp"
                  (snd (add_credential "tmp" "t" None Demo.one))))) =
  _credentials (self Demo.one).
Proof.
  assert (H : dict_get "tmp" (_credentials (self Demo.one)) = None)
    by (vm_compute; reflexivity).
  split; [exact H|].
  apply (add_then_remove Demo.one "tmp" "t" None H).
Defined.

(** ** Saving *)

Section Saving.
Context {ext : Externals}.

Lemma _save_vault_unwritable (s : St) :
  vault_writable (world s) = false ->
  exists w',
    _save_vault s = (Raise EncryptionError, mkSt w' (self s)) /\
    vault_file w' = vault_file (world s) /\
    config_file w' = config_file (world s) /\
    log w' = (log (world s) ++ [(ERROR, "Failed to save vault")])%list.
Proof.
  destruct s as [w o]. msimpl. intros Hw.
  unfold _save_vault, _derive_key, urandom. mrun.
  destruct (salt (_config o)) as [|b sl]; msimpl;
    destruct (_password o) as [p|]; msimpl; rewrite ?Hw; msimpl;
    eexists; (split; [reflexivity|]); repeat split.
Qed.


(** X11. Under auto-save, when the store cannot be written,
    [add_credential] raises [EncryptionError] after the fact: the new
    record is in the object, the store on disk is the old one, and one
    ERROR record "Failed to save vault" is logged. *)
Theorem failed_save_keeps_change (s : St) (n v : string) (m : option (pydict json)) :
  auto_save (self s) = true ->
  vault_writable (world s) = false ->
  fst (add_credential n v m s) = Raise EncryptionError /\
  dict_get n (_credentials (self (snd (add_credential n v m s)))) =
    Some (added (world s) n v m) /\
  vault_file (world (snd (add_credential n v m s))) = vault_file (world s) /\
  log (world (snd (add_credential n v m s))) =
    (log (world s) ++ [(ERROR, "Failed to save vault")])%list.
Proof.
  intros Ha Hw. rewrite add_credential_unfold.
  match goal with |- context [save_if_auto ?st] =>
    destruct (_save_vault_unwritable st Hw) as (w' & Hs & Hv & _ & Hl) end.
  unfold save_if_auto, bind, gets. msimpl. rewrite Ha, Hs. msimpl.
  split; [reflexivity|]. split; [apply dict_get_set_same|].
  split; [exact Hv | exact Hl].
Qed.


Lemma save_if_auto_frame (s : St) :
  exists w',
    snd (save_if_auto s) = mkSt w' (self s) /\ frame (world s) w' /\
    (auto_save (self s) = false -> w' = world s).
Proof.
  unfold save_if_auto, bind, gets, ret.
  destruct (auto_save (self s)) eqn:Ea.
  - destruct (_save_vault_cases s) as (w' & Hf & [[-> _] | (k & iv & -> & _)]);
      exists w'; (split; [reflexivity|]); (split; [exact Hf | discriminate]).
  - exists (world s). destruct s. split; [reflexivity|].
    split; [apply frame_refl | reflexivity].
Qed.

Lemma quiet_save_if_auto (s0 : St) (w : World) (o : Vault) :
  auto_save o = auto_save (self s0) ->
  (exists n, w = set_ticks n (world s0)) ->
  quiet s0 (snd (save_if_auto (mkSt w o))).
Proof.
  intros Ha [n ->].
  destruct (save_if_auto_frame (mkSt (set_ticks n (world s0)) o))
    as (w' & -> & (H1 & H2 & H3 & H4 & H5 & _) & Hq).
  msimpl. unfold quiet. msimpl.
  do 5 (split; [assumption|]).
  intros Hf. rewrite <- Ha in Hf. rewrite (Hq Hf). repeat split.
Qed.

Lemma quiet_refl (s : St) : quiet s s.
Proof. unfold quiet. repeat split. Qed.

Lemma set_ticks_same (w : World) : w = set_ticks (ticks w) w.
Proof. now destruct w. Qed.

(** X13. The four operations on one credential ([add_credential],
    [get_credential], [remove_credential], [set_metadata]) never write
    [config.json] or the backup directory, and on a vault without
    auto-save they touch neither the store nor the log: whatever they
    change stays in memory until [save]. *)
Theorem credential_calls_are_quiet (s : St) (c : call) :
  match c with
  | CAdd _ _ _ | CGet _ | CRemove _ | CSetMetadata _ _ =>
      quiet s (snd (run_call c s))
  | _ => True
  end.
Proof.
  destruct c as [| n v m | n | n | n m | | | | |]; try exact I;
    cbn [run_call].
  - rewrite add_credential_unfold. apply quiet_save_if_auto; [reflexivity|].
    now eexists.
  - assert (Hd : snd (discard (get_credential n) s) = snd (get_credential n s))
      by (unfold discard; now destruct (get_credential n s) as [[|] ?]).
    rewrite Hd. clear Hd. destruct s as [w o].
    unfold get_credential. mrun.
    destruct (dict_get n (_credentials o)) as [c|]; msimpl; [|apply quiet_refl].
    destruct (log_access (settings (_config o))); msimpl; [|apply quiet_refl].
    match goal with |- context [save_if_auto ?st] =>
      assert (Hq : quiet (mkSt w o) (snd (save_if_auto st)))
        by (apply quiet_save_if_auto; [reflexivity | now eexists]);
      destruct (save_if_auto st) as [[[]|e] s'] end; exact Hq.
  - destruct s as [w o]. unfold remove_credential. mrun.
    destruct (dict_mem n (_credentials o)); msimpl; [|apply quiet_refl].
    apply (quiet_save_if_auto (mkSt w o)); [reflexivity|].
    exists (ticks w). apply set_ticks_same.
  - destruct s as [w o]. unfold set_metadata. mrun.
    destruct (dict_get n (_credentials o)) as [c|]; msimpl; [|apply quiet_refl].
    apply (quiet_save_if_auto (mkSt w o)); [reflexivity|]. now eexists.
Qed.


End Saving.

Lemma failed_save_keeps_change_witness :
  auto_save (self (mkSt (set_environment false true None (world Demo.one))
                     (self Demo.one))) = true /\
  vault_writable (world (mkSt (set_environment false true None (world Demo.one))
                           (self Demo.one))) = false /\
  fst (add_credential "k2" "v" None
         (mkSt (set_environment false true None (world Demo.one)) (self Demo.one))) =
  Raise EncryptionError.
Proof.
  assert (Ha : auto_save (self (mkSt (set_environment false true None (world Demo.one))
                                  (self Demo.one))) = true)
    by (vm_compute; reflexivity).
  assert (Hw : vault_writable
                 (world (mkSt (set_environment false true None (world Demo.one))
                           (self Demo.one))) = false)
    by reflexivity.
  split; [exact Ha|]. split; [exact Hw|].
  apply (proj1 (failed_save_keeps_change _ "k2" "v" None Ha Hw)).
Defined.



(** ** Constructing a vault *)

Section Constructing.
Context {ext : Externals}.

Lemma same_files_refl (w : World) : same_files w w.
Proof. repeat split. Qed.

Lemma same_files_trans (w1 w2 w3 : World) :
  same_files w1 w2 -> same_files w2 w3 -> same_files w1 w3.
Proof.
  intros (A1 & A2 & A3) (B1 & B2 & B3).
  repeat split; congruence.
Qed.

Lemma later_same_files (w w' : World) : later w w' -> same_files w w'.
Proof. intros (n & _ & ->). repeat split. Qed.

Lemma _load_config_files (w : World) :
  exists cfg, fst (_load_config w) = Ok cfg /\
    same_files w (snd (_load_config w)) /\
    environ_password (snd (_load_config w)) = environ_password w.
Proof.
  unfold _load_config, fresh_config. mrun.
  destruct (config_file w) as [[|c]|]; msimpl; eexists;
    (split; [reflexivity|]); repeat split.
Qed.

Lemma _load_vault_reads (s : St) :
  same_files (world s) (world (snd (_load_vault s))) /\
  (fst (_load_vault s) = Ok tt \/ fst (_load_vault s) = Raise EncryptionError) /\
  auto_save (self (snd (_load_vault s))) = auto_save (self s) /\
  _password (self (snd (_load_vault s))) = _password (self s) /\
  _config (self (snd (_load_vault s))) = _config (self s).
Proof.
  destruct s as [w o]. unfold _load_vault, _derive_key, urandom. mrun.
  unfold same_files.
  destruct (vault_file w) as [b|] eqn:Ev; msimpl;
    [|repeat split; first [assumption | now left]].
  destruct (salt (_config o)) as [|b0 sl]; msimpl;
    destruct (_password o) as [p|] eqn:Ep; msimpl;
    try (repeat split; first [assumption | now right]; fail).
  all: match goal with |- context [fernet_decrypt ?k ?b'] =>
         destruct (fernet_decrypt k b') as [x|] end; msimpl;
       [|repeat split; first [assumption | now right]].
  all: destruct (json_loads x) as [j|]; msimpl;
       [|repeat split; first [assumption | now right]].
  all: destruct j as [| | | |items|items]; msimpl;
       try (repeat split; first [assumption | now right]; fail).
  all: match goal with |- context [load_items ?l [] ?w1] =>
         pose proof (later_same_files _ _ (load_items_later l [] w1)) as Hl;
         destruct (load_items l [] w1) as [[d|e] w2] end;
       unfold same_files in Hl; msimpl; destruct Hl as (A & B & C).
  all: repeat split; first [assumption | congruence | now left | now right].
Qed.

(** X15. Constructing a [Vault] only reads: whatever the password and
    whatever is on disk, the store, [config.json] and the backup
    directory are afterwards what they were, so a default configuration
    with its new salt is not written by the constructor. The only
    exception it raises is [AuthenticationError], and the object it
    returns has the given [auto_save] and the password given or, when
    that is missing or empty, the one of the environment. *)
Theorem __init___only_reads (w : World) (pw : option string) (auto : bool) :
  same_files w (snd (__init__ pw auto w)) /\
  (forall e, fst (__init__ pw auto w) = Raise e -> e = AuthenticationError) /\
  (forall o, fst (__init__ pw auto w) = Ok o ->
     auto_save o = auto /\
     _password o = password_or_environ pw (environ_password w)).
Proof.
  unfold __init__. mrun.
  destruct (no_password (password_or_environ pw (environ_password w)) &&
            match vault_file w with Some _ => true | None => false end).
  { split; [apply same_files_refl|]. split; [now intros e [= <-] | discriminate]. }
  destruct (_load_config_files w) as (cfg & Hr & Hf & _).
  destruct (_load_config w) as [r w1]. cbn [fst snd] in *. subst r.
  destruct (vault_file w) as [b|]; msimpl.
  - match goal with |- context [_load_vault ?st] =>
      destruct (_load_vault_reads st) as (Hf' & Hres & Ha & Hp & _);
      destruct (_load_vault st) as [[[]|e] s'] end; msimpl.
    + split; [eapply same_files_trans; eauto|]. split; [discriminate|].
      intros o [= <-]. now split.
    + split; [eapply same_files_trans; eauto|].
      split; [now intros e' [= <-] | discriminate].
  - split; [exact Hf|]. split; [discriminate|]. intros o [= <-]. now split.
Qed.

(** X16. Where there is no store, constructing a [Vault] always returns,
    with or without a password, an object with no credentials. Its
    configuration is the one of [config.json] when that parses; otherwise
    it is the default one: version 1, [log_access] and [auto_backup] on,
    [backup_count] 5, a salt of 16 random bytes and the current time as
    [created_at], with a WARNING logged when the file is there but does
    not parse. *)
Theorem __init___without_store (w : World) (pw : option string) (auto : bool) :
  vault_file w = None ->
  exists cfg w',
    __init__ pw auto w =
      (Ok (mkVault auto (password_or_environ pw (environ_password w)) [] cfg), w') /\
    match config_file w with
    | Some (Parsed c) => cfg = c /\ w' = w
    | other =>
        cfg = mkConfig (isoformat (clock w (ticks w))) 1
                (map (entropy w) (seq (drawn w) 16)) (mkSettings true true 5) /\
        List.length (salt cfg) = 16%nat /\
        log w' =
          match other with
          | Some _ =>
              (log w ++ [(WARNING, "Failed to load config, using defaults")])%list
          | None => log w
          end
    end.
Proof.
  intros Hv. unfold __init__, _load_config, fresh_config. mrun. rewrite Hv.
  rewrite andb_false_r.
  destruct (config_file w) as [[|c]|]; msimpl; do 2 eexists;
    (split; [reflexivity|]); msimpl; repeat split;
    now rewrite length_map, length_seq.
Qed.

(** X17. Where there is a store, a [Vault] constructed with no password,
    or an empty one, and none in the environment raises
    [AuthenticationError] at once: nothing is read, decrypted or
    logged. *)
Theorem __init___requires_password (w : World) (pw : option string) (auto : bool)
    (b : blob) :
  vault_file w = Some b ->
  no_password (password_or_environ pw (environ_password w)) = true ->
  __init__ pw auto w = (Raise AuthenticationError, w).
Proof.
  intros Hv Hp. unfold __init__. mrun. now rewrite Hv, Hp.
Qed.

End Constructing.

Lemma __init___without_store_witness :
  vault_file Demo.w0 = None /\
  exists cfg w',
    __init__ None true Demo.w0 = (Ok (mkVault true None [] cfg), w') /\
    List.length (salt cfg) = 16%nat.
Proof.
  split; [reflexivity|].
  destruct (__init___without_store Demo.w0 None true eq_refl)
    as (cfg & w' & H1 & H2).
  exists cfg, w'. split; [exact H1|].
  change (config_file Demo.w0) with (@None config_text) in H2.
  exact (proj1 (proj2 H2)).
Defined.

Lemma __init___requires_password_witness :
  vault_file (world Demo.one) = Some Demo.stored /\
  no_password (password_or_environ (Some "") (environ_password (world Demo.one))) = true /\
  __init__ (Some "") true (world Demo.one) =
    (Raise AuthenticationError, world Demo.one).
Proof.
  assert (Hv : vault_file (world Demo.one) = Some Demo.stored)
    by (vm_compute; reflexivity).
  assert (Hp : no_password (password_or_environ (Some "")
                              (environ_password (world Demo.one))) = true)
    by (vm_compute; reflexivity).
  split; [exact Hv|]. split; [exact Hp|].
  apply (__init___requires_password (world Demo.one) (Some "") true Demo.stored Hv Hp).
Defined.

(** ** Creating and re-keying the store *)

Section Rekeying.
Context {ext : Externals}.

(** X18. [init] without [force] where a store exists raises [VaultError]
    and touches nothing, neither the object nor the files. *)
Theorem init_refuses_existing_store (s : St) (b : blob) :
  vault_file (world s) = Some b ->
  init false s = (Raise VaultError, s).
Proof.
  intros Hv. destruct s as [w o]. msimpl. unfold init. mrun. now rewrite Hv.
Qed.

Lemma creds_ok_nil (T : Credential -> Prop) : creds_ok T [].
Proof. split; [constructor | intros k c []]. Qed.

(** A successful [_save_vault], in full: 16 random bytes are drawn for the
    token and the store is replaced. *)
Lemma _save_vault_exact (s : St) (p : string) :
  _password (self s) = Some p ->
  salt (_config (self s)) <> [] ->
  vault_writable (world s) = true ->
  _save_vault s =
  (Ok tt,
   mkSt (set_vault_file
           (Some (fernet_encrypt (pbkdf2 p (salt (_config (self s))))
                    (map (entropy (world s)) (seq (drawn (world s)) 16))
                    (json_dumps (credentials_data (_credentials (self s))))))
           (set_drawn (drawn (world s) + 16) (world s)))
     (self s)).
Proof.
  destruct s as [w o]. msimpl. intros Hp Hs Hw.
  unfold _save_vault, _derive_key, urandom. mrun.
  rewrite Hp. destruct (salt (_config o)) as [|b sl]; [congruence|].
  msimpl. rewrite Hw. reflexivity.
Qed.

(** X19. [init] on a vault with a password, where store and
    configuration can be written and either no store exists or [force]
    is given, returns and leaves an empty vault: the credentials in the
    object are dropped, the configuration is the default one with a new
    16-byte salt and is written to [config.json], the backup directory is
    not touched (no backup of the replaced store is made), one INFO
    record is logged, and constructing a vault with the password
    afterwards gives an object with no credentials. *)
Theorem init_creates_empty_vault (s : St) (pw : string) (force : bool) :
  _password (self s) = Some pw ->
  pw <> "" ->
  vault_writable (world s) = true ->
  config_writable (world s) = true ->
  (vault_file (world s) = None \/ force = true) ->
  exists s',
    init force s = (Ok tt, s') /\
    _credentials (self s') = [] /\
    _config (self s') =
      mkConfig (isoformat (clock (world s) (ticks (world s)))) 1
        (map (entropy (world s)) (seq (drawn (world s)) 16))
        (mkSettings true true 5) /\
    config_file (world s') = Some (Parsed (_config (self s'))) /\
    backup_files (world s') = backup_files (world s) /\
    log (world s') = (log (world s) ++ [(INFO, "Initialized new vault")])%list /\
    forall auto,
      __init__ (Some pw) auto (world s') =
      (Ok (mkVault auto (Some pw) [] (_config (self s'))), world s').
Proof.
  intros Hp Hne Hw Hcw Hf. destruct s as [w o]. msimpl.
  unfold init, fresh_config. mrun.
  assert (Hgo : (match vault_file w with Some _ => true | None => false end)
                && negb force = false).
  { destruct Hf as [-> | ->]; [reflexivity | apply andb_false_r]. }
  rewrite Hgo.
  match goal with |- context [_save_config ?st] =>
    destruct (_save_config_cases st) as [[_ Hc]|[-> _]];
      [cbn [world] in Hc; msimpl; congruence|] end.
  msimpl.
  match goal with |- context [_save_vault ?st] =>
    rewrite (_save_vault_exact st pw Hp) end.
  2: { msimpl. discriminate. }
  2: { exact Hw. }
  msimpl.
  eexists. split; [reflexivity|]. msimpl.
  do 5 (split; [reflexivity|]).
  intros auto.
  eapply (__init___reopens (fun _ => True)).
  - msimpl. reflexivity.
  - reflexivity.
  - msimpl. discriminate.
  - exact Hne.
  - apply creds_ok_nil.
Qed.


(** X21. [save] on a reachable vault with a non-empty password and salt,
    where store and configuration can be written, returns, and a vault
    constructed with the password afterwards is the same object up to
    [auto_save]: the same names in the same order, each with its value,
    metadata and all three timestamps, and the same configuration. *)
Theorem save_then_reopen (w0 : World) (s : St) (pw : string) :
  vault_file w0 = None ->
  reachable w0 s ->
  _password (self s) = Some pw ->
  pw <> "" ->
  salt (_config (self s)) <> [] ->
  vault_writable (world s) = true ->
  config_writable (world s) = true ->
  exists w',
    save s = (Ok tt, mkSt w' (self s)) /\
    forall auto,
      __init__ (Some pw) auto w' =
      (Ok (mkVault auto (Some pw) (_credentials (self s)) (_config (self s))), w').
Proof.
  intros Hv0 Hr Hp Hne Hs Hw Hcw.
  pose proof (reachable_Inv false w0 s Hv0 (fun H => False_ind _ (diff_false_true H)) Hr)
    as (_ & Hcr & _).
  destruct s as [w o]. msimpl.
  unfold save, bind. rewrite (_save_vault_exact (mkSt w o) pw Hp Hs Hw). msimpl.
  unfold _save_config. mrun. rewrite Hcw. msimpl.
  eexists. split; [reflexivity|].
  intros auto. eapply __init___reopens.
  - msimpl. reflexivity.
  - reflexivity.
  - exact Hs.
  - exact Hne.
  - exact Hcr.
Qed.

End Rekeying.

Lemma init_refuses_existing_store_witness :
  vault_file (world Demo.one) = Some Demo.stored /\
  init false Demo.one = (Raise VaultError, Demo.one).
Proof.
  assert (Hv : vault_file (world Demo.one) = Some Demo.stored)
    by (vm_compute; reflexivity).
  split; [exact Hv|].
  apply (init_refuses_existing_store Demo.one Demo.stored Hv).
Defined.

Lemma init_creates_empty_vault_witness :
  _password (self Demo.one) = Some "hunter2" /\
  "hunter2" <> "" /\
  vault_writable (world Demo.one) = true /\
  config_writable (world Demo.one) = true /\
  (vault_file (world Demo.one) = None \/ true = true) /\
  exists s', init true Demo.one = (Ok tt, s') /\ _credentials (self s') = [].
Proof.
  assert (Hp : _password (self Demo.one) = Some "hunter2") by (vm_compute; reflexivity).
  assert (Hne : "hunter2" <> "") by discriminate.
  assert (Hw : vault_writable (world Demo.one) = true) by (vm_compute; reflexivity).
  assert (Hcw : config_writable (world Demo.one) = true) by (vm_compute; reflexivity).
  assert (Hf : vault_file (world Demo.one) = None \/ true = true) by (right; reflexivity).
  do 5 (split; [assumption|]).
  destruct (init_creates_empty_vault Demo.one "hunter2" true Hp Hne Hw Hcw Hf)
    as (s' & H1 & H2 & _).
  exists s'. split; [exact H1 | exact H2].
Defined.


Lemma save_then_reopen_witness :
  vault_file Demo.w0 = None /\
  reachable Demo.w0 Demo.one /\
  _password (self Demo.one) = Some "hunter2" /\
  "hunter2" <> "" /\
  salt (_config (self Demo.one)) <> [] /\
  vault_writable (world Demo.one) = true /\
  config_writable (world Demo.one) = true /\
  exists w', save Demo.one = (Ok tt, mkSt w' (self Demo.one)).
Proof.
  assert (Hp : _password (self Demo.one) = Some "hunter2") by (vm_compute; reflexivity).
  assert (Hne : "hunter2" <> "") by discriminate.
  assert (Hs : salt (_config (self Demo.one)) <> []) by (vm_compute; discriminate).
  assert (Hw : vault_writable (world Demo.one) = true) by (vm_compute; reflexivity).
  assert (Hcw : config_writable (world Demo.one) = true) by (vm_compute; reflexivity).
  split; [reflexivity|]. split; [exact demo_one_reachable|].
  do 5 (split; [assumption|]).
  destruct (save_then_reopen Demo.w0 Demo.one "hunter2" eq_refl
              demo_one_reachable Hp Hne Hs Hw Hcw) as (w' & H1 & _).
  exists w'. exact H1.
Defined.

(** ** Backups in general *)

Section BackupFacts.
Context {ext : Externals}.

(** X22. [backup] where there is no store raises [FileNotFoundError]
    after reading the clock for the file name; the backup directory and
    the object stay as they were. *)
Theorem backup_needs_a_store (s : St) :
  vault_file (world s) = None ->
  backup s =
  (Raise FileNotFoundError, mkSt (set_ticks (S (ticks (world s))) (world s)) (self s)).
Proof.
  intros Hv. destruct s as [w o]. msimpl. unfold backup. mrun. now rewrite Hv.
Qed.

(** X23. With pruning off ([auto_backup] false, or a [backup_count] of
    zero or less) [backup] only adds: it returns the name made from the
    current time, the directory gets under that name a copy of the store,
    replacing a file of the same name, and every other file stays. *)
Theorem backup_without_pruning (s : St) (b : blob) :
  vault_file (world s) = Some b ->
  auto_backup (settings (_config (self s))) = false \/
  backup_count (settings (_config (self s))) <= 0 ->
  backup s =
  (Ok (backup_name (clock (world s) (ticks (world s)))),
   mkSt (set_backup_files
           (dict_set (backup_name (clock (world s) (ticks (world s)))) b
              (backup_files (world s)))
           (set_ticks (S (ticks (world s))) (world s)))
     (self s)) /\
  forall f,
    f <> backup_name (clock (world s) (ticks (world s))) ->
    dict_get f (backup_files (world (snd (backup s)))) =
    dict_get f (backup_files (world s)).
Proof.
  intros Hv Hoff. destruct s as [w o]. msimpl.
  assert (Hb : backup (mkSt w o) =
               (Ok (backup_name (clock w (ticks w))),
                mkSt (set_backup_files
                        (dict_set (backup_name (clock w (ticks w))) b (backup_files w))
                        (set_ticks (S (ticks w)) w)) o)).
  { unfold backup, _cleanup_backups. mrun. rewrite Hv. msimpl.
    destruct (auto_backup (settings (_config o))); cbn [negb]; [|reflexivity].
    destruct Hoff as [Hoff|Hoff]; [discriminate|].
    apply Z.leb_le in Hoff. now rewrite Hoff. }
  rewrite Hb. split; [reflexivity|].
  intros f Hf. msimpl. now apply dict_get_set_other.
Qed.








End BackupFacts.

Lemma backup_needs_a_store_witness :
  vault_file (world (Demo.construct "hunter2" Demo.w0)) = None /\
  fst (backup (Demo.construct "hunter2" Demo.w0)) = Raise FileNotFoundError.
Proof.
  assert (Hv : vault_file (world (Demo.construct "hunter2" Demo.w0)) = None)
    by (vm_compute; reflexivity).
  split; [exact Hv|].
  rewrite (backup_needs_a_store (Demo.construct "hunter2" Demo.w0) Hv).
  reflexivity.
Defined.

Lemma backup_without_pruning_witness :
  vault_file (world Demo.unpruned) = Some Demo.stored /\
  (auto_backup (settings (_config (self Demo.unpruned))) = false \/
   backup_count (settings (_config (self Demo.unpruned))) <= 0) /\
  forall f,
    f <> backup_name (clock (world Demo.unpruned) (ticks (world Demo.unpruned))) ->
    dict_get f (backup_files (world (snd (backup Demo.unpruned)))) =
    dict_get f (backup_files (world Demo.unpruned)).
Proof.
  assert (Hv : vault_file (world Demo.unpruned) = Some Demo.stored)
    by (vm_compute; reflexivity).
  assert (Hoff : auto_backup (settings (_config (self Demo.unpruned))) = false \/
                 backup_count (settings (_config (self Demo.unpruned))) <= 0)
    by (left; reflexivity).
  split; [exact Hv|]. split; [exact Hoff|].
  apply (proj2 (backup_without_pruning Demo.unpruned Demo.stored Hv Hoff)).
Defined.


(** ** Saving when [config.json] cannot be written *)

Section PartialSave.
Context {ext : Externals}.

(** X25. [save] writes the store first and the configuration second, and
    does not wrap the second step: where the store can be written and
    [config.json] cannot, [save] raises a bare [OSError] (not a
    [VaultError]) after the store has been replaced by the encryption of
    the current credentials, and [config.json] stays as it was. *)
Theorem save_stops_after_the_store (s : St) (pw : string) :
  _password (self s) = Some pw ->
  salt (_config (self s)) <> [] ->
  vault_writable (world s) = true ->
  config_writable (world s) = false ->
  fst (save s) = Raise OSError /\
  vault_file (world (snd (save s))) =
    Some (fernet_encrypt (pbkdf2 pw (salt (_config (self s))))
            (map (entropy (world s)) (seq (drawn (world s)) 16))
            (json_dumps (credentials_data (_credentials (self s))))) /\
  config_file (world (snd (save s))) = config_file (world s) /\
  self (snd (save s)) = self s.
Proof.
  intros Hp Hs Hw Hcw. destruct s as [w o]. msimpl.
  unfold save, bind. rewrite (_save_vault_exact (mkSt w o) pw Hp Hs Hw). msimpl.
  unfold _save_config. mrun. rewrite Hcw. msimpl. repeat split.
Qed.

End PartialSave.

Lemma save_stops_after_the_store_witness :
  _password (self Demo.readonly) = Some "hunter2" /\
  salt (_config (self Demo.readonly)) <> [] /\
  vault_writable (world Demo.readonly) = true /\
  config_writable (world Demo.readonly) = false /\
  fst (save Demo.readonly) = Raise OSError.
Proof.
  assert (Hp : _password (self Demo.readonly) = Some "hunter2")
    by (vm_compute; reflexivity).
  assert (Hs : salt (_config (self Demo.readonly)) <> [])
    by (vm_compute; discriminate).
  assert (Hw : vault_writable (world Demo.readonly) = true) by reflexivity.
  assert (Hcw : config_writable (world Demo.readonly) = false) by reflexivity.
  do 4 (split; [assumption|]).
  apply (proj1 (save_stops_after_the_store Demo.readonly "hunter2" Hp Hs Hw Hcw)).
Defined.
